(** * redis-commander, lib/app.js: access gate and connection registry

    A shallow embedding of the parts of [lib/app.js] that decide who may
    talk to the application and which Redis connections are open:

    - [equalStrings], the comparison used for the configured password;
    - [jwtSign] / [jwtVerify] with the process-wide [usedTokens] set and
      the eviction timers that [jwtVerify] schedules;
    - the [/signin] handler (credential check and token issuance);
    - the token middleware in front of every other route;
    - [login] / [logout] on the [redisConnections] array.

    The strings of the HTTP layer (form fields, headers, configuration
    entries, tokens) are modelled by [string]; one character is one code
    unit in 0..255.  [equalStrings] takes JavaScript strings in full, as
    lists of UTF-16 code units.  Time is the value of [new Date() * 1], an
    integer number of milliseconds.  The libraries the file calls
    (jsonwebtoken, bcrypt, ioredis, Node's crypto and timers) are not part
    of the file: their documented behaviour is written out where the code
    depends on it, and what stays abstract (signing and signature check,
    password hashing, the values compared by [==]) is a parameter. *)

From Stdlib Require Import ZArith List String Ascii Bool Lia DecimalString.
From stdpp Require Import base decidable option list gmap sets strings.

Local Open Scope string_scope.
Local Open Scope list_scope.
Local Open Scope Z_scope.

(** ** JavaScript values that reach the code as "maybe a string" *)

Module Js.

(** [undefined] or a string (a form field, a query parameter, a header, a
    configuration entry). *)
Definition value := option string.

(** Truthiness: [undefined] and the empty string are falsy. *)
Definition truthy (v : value) : bool :=
  match v with
  | None => false
  | Some s => negb (String.eqb s "")
  end.

(** [String(v)]. *)
Definition String_ (v : value) : string :=
  match v with
  | None => "undefined"
  | Some s => s
  end.

(** [v || d] for a string default. *)
Definition or_else (v : value) (d : string) : string :=
  match v with
  | Some s => if String.eqb s "" then d else s
  | None => d
  end.

(** What a promise settles to. *)
Inductive settled (A : Type) : Type :=
  | Resolved (a : A)
  | Rejected (why : string).
Arguments Resolved {A} a.
Arguments Rejected {A} why.

End Js.

(** ** [crypto.timingSafeEqual] and [equalStrings] *)

Module Crypto.

Definition Buffer := list N.

(** A JavaScript string: the sequence of its UTF-16 code units. *)
Definition jstring := list N.

(** A [string] of the HTTP layer as a JavaScript string. *)
Definition units_of_string (s : string) : jstring :=
  N_of_ascii <$> list_ascii_of_string s.

(** High surrogates are d800..dbff, low surrogates dc00..dfff. *)
Definition is_high (u : N) : bool := ((55296 <=? u) && (u <=? 56319))%N.
Definition is_low (u : N) : bool := ((56320 <=? u) && (u <=? 57343))%N.

(** The UTF-8 bytes of one code point: one byte below 80, two below 800,
    three below 10000, four from there on. *)
Definition utf8_code_point (cp : N) : Buffer :=
  if (cp <? 128)%N then [cp]
  else if (cp <? 2048)%N then
    [N.lor 192 (N.shiftr cp 6); N.lor 128 (N.land cp 63)]
  else if (cp <? 65536)%N then
    [N.lor 224 (N.shiftr cp 12);
     N.lor 128 (N.land (N.shiftr cp 6) 63);
     N.lor 128 (N.land cp 63)]
  else
    [N.lor 240 (N.shiftr cp 18);
     N.lor 128 (N.land (N.shiftr cp 12) 63);
     N.lor 128 (N.land (N.shiftr cp 6) 63);
     N.lor 128 (N.land cp 63)].

(** U+FFFD, which stands for every unpaired surrogate. *)
Definition replacement : Buffer := [239; 191; 189]%N.

(** [Buffer.from(s)]: the UTF-8 encoding of [s].  A high surrogate
    followed by a low one is one code point of four bytes; any other
    surrogate becomes U+FFFD. *)
Fixpoint Buffer_from (s : jstring) : Buffer :=
  match s with
  | [] => []
  | u :: rest =>
      if is_high u then
        match rest with
        | v :: rest' =>
            if is_low v then
              utf8_code_point
                (65536 + N.shiftl (u - 55296) 10 + (v - 56320))%N
              ++ Buffer_from rest'
            else replacement ++ Buffer_from rest
        | [] => replacement
        end
      else if is_low u then replacement ++ Buffer_from rest
      else utf8_code_point u ++ Buffer_from rest
  end.

Definition Buffer_concat (bufs : list Buffer) : Buffer := concat bufs.

(** The comparison loop of [timingSafeEqual]: every byte pair is visited
    and the differences are accumulated with or/xor. *)
Fixpoint diff_bits (x y : Buffer) (acc : N) : N :=
  match x, y with
  | a :: x', b :: y' => diff_bits x' y' (N.lor acc (N.lxor a b))
  | _, _ => acc
  end.

(** [crypto.timingSafeEqual(x, y)]: throws a RangeError ([None]) when the
    byte lengths differ. *)
Definition timingSafeEqual (x y : Buffer) : option bool :=
  if Nat.eqb (length x) (length y) then Some (N.eqb (diff_bits x y 0) 0)
  else None.

(** [equalStrings(a, b)]; [hasTimingSafeEqual] says whether the running
    Node has [crypto.timingSafeEqual].  [None] is a thrown exception. *)
Definition equalStrings (hasTimingSafeEqual : bool) (a b : jstring)
  : option bool :=
  if negb hasTimingSafeEqual then Some (bool_decide (a = b))
  else
    let bufA := Buffer_from a in
    let bufB := Buffer_from b in
    timingSafeEqual (Buffer_concat [bufA; bufB]) (Buffer_concat [bufB; bufA]).

(** Code units that are not surrogates. *)
Definition is_scalar (u : N) : bool :=
  ((u <? 55296) || ((57344 <=? u) && (u <? 65536)))%N.

(** Reading back the first code point below 10000 from its bytes. *)
Definition utf8_head (buf : Buffer) : option N :=
  match buf with
  | b1 :: r1 =>
      if (b1 <? 128)%N then Some b1
      else
        match r1 with
        | b2 :: r2 =>
            if (b1 <? 224)%N then
              Some (N.lor (N.shiftl (N.land b1 31) 6) (N.land b2 63))
            else
              match r2 with
              | b3 :: _ =>
                  Some (N.lor (N.lor (N.shiftl (N.land b1 15) 12)
                                     (N.shiftl (N.land b2 63) 6))
                              (N.land b3 63))
              | [] => None
              end
        | [] => None
        end
  | [] => None
  end.

(** [f] on [start], [start + 1], ..., [count] values in all. *)
Fixpoint all_from (count : nat) (start : N) (f : N -> bool) : bool :=
  match count with
  | O => true
  | S count' => f start && all_from count' (N.succ start) f
  end.

End Crypto.

Coercion Crypto.units_of_string : string >-> Crypto.jstring.

(** ** jsonwebtoken: what [jwt.sign] and [jwt.verify] do for this file *)

Module Jwt.

(** The claims of a decoded token that the library or [app.js] looks at. *)
Record Payload := {
  iss : Js.value;
  sub : Js.value;
  iat : option Z;
  nbf : option Z;
  exp : option Z;
  singleUse : bool
}.

(** The error classes of the library; the handler looks at none of them. *)
Inductive VerifyError :=
  | JsonWebTokenError
  | NotBeforeError
  | TokenExpiredError.

(** The cryptographic core of the library stays abstract.  A [decoder]
    takes the secret and the token string and gives the claims when the
    token is well formed (three non-empty parts, a JSON object as payload)
    and its signature verifies against the secret, and [None] otherwise;
    an [encoder] serialises and signs. *)
Definition decoder := string -> string -> option Payload.
Definition encoder := string -> Payload -> string.

Definition issuer : string := "Redis Commander".
Definition subject : string := "Session Token".
Definition expiresIn : Z := 60.

(** [Math.floor(Date.now() / 1000)] *)
Definition clockTimestamp (now : Z) : Z := now / 1000.

(** [jwt.verify(token, secret, {issuer, subject}, cb)]: the value handed
    to [cb], [inl err] or [inr decodedToken]. *)
Definition verify (decode : decoder) (token secret : string) (now : Z)
  : VerifyError + Payload :=
  match decode secret token with
  | None => inl JsonWebTokenError
  | Some p =>
      if match nbf p with Some n => clockTimestamp now <? n | None => false end
      then inl NotBeforeError
      else if match exp p with Some e => e <=? clockTimestamp now | None => false end
      then inl TokenExpiredError
      else if negb (bool_decide (iss p = Some issuer))
      then inl JsonWebTokenError
      else if negb (bool_decide (sub p = Some subject))
      then inl JsonWebTokenError
      else inr p
  end.

(** [jwt.sign(data, secret, {issuer, subject, expiresIn: 60}, cb)]; the
    only datum the file ever puts in [data] is [singleUse]. *)
Definition claims (data_singleUse : bool) (now : Z) : Payload :=
  {| iss := Some issuer;
     sub := Some subject;
     iat := Some (clockTimestamp now);
     nbf := None;
     exp := Some (clockTimestamp now + expiresIn);
     singleUse := data_singleUse |}.

Definition sign (encode : encoder) (data_singleUse : bool) (secret : string)
  (now : Z) : string :=
  encode secret (claims data_singleUse now).

End Jwt.

(** ** The access gate: [usedTokens], [jwtSign], [jwtVerify], [/signin],
       and the token middleware *)

Module Gate.

(** The module-level state [jwtVerify] works on, and what it leaves behind:
    the [usedTokens] set, the timers created by [setTimeout] and not yet
    run (due time, token to delete), the console, and the tokens that were
    handed to [jwt.verify]. *)
Record State := {
  usedTokens : gset string;
  timers : list (Z * string);
  console : list string;
  verifyCalls : list string
}.

Definition initial : State :=
  {| usedTokens := ∅; timers := []; console := []; verifyCalls := [] |}.

Definition TIMEOUT_MAX : Z := 2147483647.

(** [setTimeout(f, delay)] called at [now]: the time from which the timer
    may run.  Node sets a delay below 1 or above [TIMEOUT_MAX] to 1. *)
Definition setTimeout_due (now delay : Z) : Z :=
  now + (if (1 <=? delay) && (delay <=? TIMEOUT_MAX) then delay else 1).

Definition console_log (msg : string) (st : State) : State :=
  {| usedTokens := usedTokens st; timers := timers st;
     console := console st ++ [msg]; verifyCalls := verifyCalls st |}.

Definition record_verify (token : string) (st : State) : State :=
  {| usedTokens := usedTokens st; timers := timers st;
     console := console st; verifyCalls := verifyCalls st ++ [token] |}.

Definition usedTokens_add (token : string) (st : State) : State :=
  {| usedTokens := {[ token ]} ∪ usedTokens st; timers := timers st;
     console := console st; verifyCalls := verifyCalls st |}.

Definition usedTokens_delete (token : string) (st : State) : State :=
  {| usedTokens := usedTokens st ∖ {[ token ]}; timers := timers st;
     console := console st; verifyCalls := verifyCalls st |}.

Definition setTimeout_delete (token : string) (now delay : Z) (st : State) : State :=
  {| usedTokens := usedTokens st;
     timers := timers st ++ [(setTimeout_due now delay, token)];
     console := console st; verifyCalls := verifyCalls st |}.

(** [jwtSign(jwtSecret, data)] *)
Definition jwtSign (encode : Jwt.encoder) (jwtSecret : string)
  (data_singleUse : bool) (now : Z) : Js.settled string :=
  Js.Resolved (Jwt.sign encode data_singleUse jwtSecret now).

(** [jwtVerify(jwtSecret, token)] run at time [now]: what the promise
    settles to, and the state afterwards. *)
Definition jwtVerify (decode : Jwt.decoder) (jwtSecret token : string)
  (now : Z) (st : State) : Js.settled bool * State :=
  let st := record_verify token st in
  match Jwt.verify decode token jwtSecret now with
  | inl _ => (Js.Resolved false, st)
  | inr decodedToken =>
      if Jwt.singleUse decodedToken then
        if bool_decide (token ∈ usedTokens st) then
          (Js.Resolved false, console_log "Single-Usage token already used" st)
        else
          let st := usedTokens_add token st in
          let st :=
            match Jwt.exp decodedToken with
            | Some e =>
                if e =? 0 then st
                else setTimeout_delete token now ((e * 1 + 10) * 1000 - now) st
            | None => st
            end in
          (Js.Resolved true, st)
      else (Js.Resolved true, st)
  end.

(** *** The promise of [jwtVerify], with everything [jwt.verify] may do

    [jwtVerify] above is the function under the contract of the library:
    [jwt.verify] calls the callback once, with an error or with the
    decoded payload.  Here the call is taken as it comes. *)

(** The second argument of the callback. *)
Inductive Decoded :=
  | D_undefined
  | D_null
  | D_string (payload : string)          (* a payload that is not JSON *)
  | D_object (payload : Jwt.Payload).

(** What one call [jwt.verify(token, secret, options, callback)] does:
    an exception leaves it, or it returns without having called back, or
    it calls [callback(err, decodedToken)] before it returns (as
    jsonwebtoken does for a secret given as a string). *)
Inductive VerifyCall :=
  | Throws (why : string)
  | Returns
  | CallsBack (err : option Jwt.VerifyError) (decodedToken : Decoded).

(** The call as jsonwebtoken documents it. *)
Definition jsonwebtoken (decode : Jwt.decoder) (token jwtSecret : string)
  (now : Z) : VerifyCall :=
  match Jwt.verify decode token jwtSecret now with
  | inl err => CallsBack (Some err) D_undefined
  | inr p => CallsBack None (D_object p)
  end.

(** [new Promise(resolve => { jwt.verify(token, jwtSecret, {...},
    (err, decodedToken) => {...}) })]: what the promise settles to ([None]:
    it stays pending) and the state afterwards.  An exception that leaves
    the executor before [resolve] was called rejects the promise; reading
    [decodedToken.singleUse] throws a TypeError when [decodedToken] is
    [undefined] or [null], and gives [undefined] on a string. *)
Definition jwtVerify_promise (call : VerifyCall) (token : string) (now : Z)
  (st : State) : option (Js.settled bool) * State :=
  let st := record_verify token st in
  match call with
  | Throws why => (Some (Js.Rejected why), st)
  | Returns => (None, st)
  | CallsBack (Some _) _ => (Some (Js.Resolved false), st)
  | CallsBack None D_undefined => (Some (Js.Rejected "TypeError"), st)
  | CallsBack None D_null => (Some (Js.Rejected "TypeError"), st)
  | CallsBack None (D_string _) => (Some (Js.Resolved true), st)
  | CallsBack None (D_object decodedToken) =>
      if Jwt.singleUse decodedToken then
        if bool_decide (token ∈ usedTokens st) then
          (Some (Js.Resolved false),
           console_log "Single-Usage token already used" st)
        else
          let st := usedTokens_add token st in
          let st :=
            match Jwt.exp decodedToken with
            | Some e =>
                if e =? 0 then st
                else setTimeout_delete token now ((e * 1 + 10) * 1000 - now) st
            | None => st
            end in
          (Some (Js.Resolved true), st)
      else (Some (Js.Resolved true), st)
  end.


(** *** The event loop around [jwtVerify] *)

Record World := { now : Z; gate : State }.

Inductive Event :=
  | Verify (token : string)      (* a call of jwtVerify(jwtSecret, token) *)
  | Elapse (ms : N)              (* the clock moves on *)
  | Fire (i : nat).              (* timer number i runs, if it is due *)

Definition fire (i : nat) (w : World) : World :=
  match timers (gate w) !! i with
  | Some (due, token) =>
      if due <=? now w then
        let st := usedTokens_delete token (gate w) in
        {| now := now w;
           gate := {| usedTokens := usedTokens st;
                      timers := take i (timers st) ++ drop (S i) (timers st);
                      console := console st;
                      verifyCalls := verifyCalls st |} |}
      else w
  | None => w
  end.

(** One event; a [Verify] also yields what the promise settled to. *)
Definition step (decode : Jwt.decoder) (jwtSecret : string) (w : World)
  (ev : Event) : World * option (Js.settled bool) :=
  match ev with
  | Verify token =>
      let '(r, st) := jwtVerify decode jwtSecret token (now w) (gate w) in
      ({| now := now w; gate := st |}, Some r)
  | Elapse ms => ({| now := now w + Z.of_N ms; gate := gate w |}, None)
  | Fire i => (fire i w, None)
  end.

Fixpoint run (decode : Jwt.decoder) (jwtSecret : string) (w : World)
  (evs : list Event) : World :=
  match evs with
  | [] => w
  | ev :: rest => run decode jwtSecret (fst (step decode jwtSecret w ev)) rest
  end.

(** The process right after start, at time [t0]. *)
Definition boot (t0 : Z) : World := {| now := t0; gate := initial |}.

End Gate.

(** ** The HTTP side: [/signin] and the token middleware *)

Module Http.

Record Body := {
  b_username : Js.value;
  b_password : Js.value;
  b_redisCommanderQueryToken : Js.value
}.

Record Request := {
  method : string;
  path : string;
  ip : string;
  body : option Body;                          (* req.body *)
  q_redisCommanderQueryToken : Js.value;       (* req.query.redisCommanderQueryToken *)
  h_Authorization : Js.value                   (* req.get('Authorization') *)
}.

(** [httpServerOptions] *)
Record ServerOptions := {
  username : Js.value;
  passwordHash : Js.value;
  password : Js.value
}.

Inductive Response :=
  | Next                                        (* next() *)
  | Json_fail                                   (* res.json({ok: false}) *)
  | Json_ok (bearerToken queryToken : string)   (* res.json({ok: true, ...}) *)
  | End_with (statusCode : Z) (text : string)   (* res.statusCode = ..; res.end(..) *)
  | Unhandled (why : string).                   (* the promise chain rejected *)

(** [\s] on code units 0..255: tab, LF, VT, FF, CR, space, no-break space. *)
Definition is_space (c : ascii) : bool :=
  let n := N_of_ascii c in
  ((9 <=? n) && (n <=? 13) || (n =? 32) || (n =? 160))%N.

(** [s.split(/\s+/)]; [cur] is the piece being read and [in_sep] says that
    the previous code unit was white space. *)
Fixpoint split_from (s : string) (cur : string) (in_sep : bool) : list string :=
  match s with
  | EmptyString => [cur]
  | String c rest =>
      if is_space c then
        if in_sep then split_from rest cur true
        else cur :: split_from rest "" true
      else split_from rest (cur +:+ String c "") false
  end.

Definition split_space (s : string) : list string := split_from s "" false.

Definition lower (c : ascii) : ascii :=
  let n := N_of_ascii c in
  if ((65 <=? n) && (n <=? 90))%N then ascii_of_N (n + 32) else c.

Fixpoint lowercase (s : string) : string :=
  match s with
  | EmptyString => EmptyString
  | String c rest => String (lower c) (lowercase rest)
  end.

(** [/^Bearer$/i.test(s)] *)
Definition is_Bearer (s : string) : bool := String.eqb (lowercase s) "bearer".

(** [authorization[i]] *)
Definition item (l : list string) (i : nat) : Js.value := l !! i.

(** [!httpServerOptions.username ||
     !(httpServerOptions.passwordHash || httpServerOptions.password)] *)
Definition no_principal (o : ServerOptions) : bool :=
  negb (Js.truthy (username o))
  || negb (Js.truthy (passwordHash o) || Js.truthy (password o)).

(** [req.body && (req.body.username || req.body.password)] *)
Definition has_credentials (req : Request) : bool :=
  match body req with
  | Some b => Js.truthy (b_username b) || Js.truthy (b_password b)
  | None => false
  end.

(** The first [then] of the [/signin] handler: the credential check.
    [bcrypt_compare] is [bcrypt.compare]. *)
Definition authenticate (decode : Jwt.decoder)
  (bcrypt_compare : string -> string -> Js.settled bool)
  (hasTimingSafeEqual : bool)
  (o : ServerOptions) (jwtSecret : string) (req : Request) (now : Z)
  (st : Gate.State) : Js.settled bool * Gate.State :=
  if no_principal o then (Js.Resolved true, st)
  else if has_credentials req then
    let b := default {| b_username := None; b_password := None;
                        b_redisCommanderQueryToken := None |} (body req) in
    let validUser :=
      String.eqb (Js.String_ (b_username b)) (Js.String_ (username o)) in
    let success := "Login success for user " +:+ Js.String_ (b_username b)
                   +:+ " from remote ip " +:+ ip req in
    let failed := "Login failed from remote ip " +:+ ip req in
    if Js.truthy (passwordHash o) then
      (* validPass is a promise here: truthy in the test for the log, and
         [validUser && validPass] is [false] or that promise *)
      let validPass :=
        bcrypt_compare (Js.String_ (b_password b)) (Js.String_ (passwordHash o)) in
      (if validUser then validPass else Js.Resolved false,
       Gate.console_log (if validUser then success else failed) st)
    else
      match Crypto.equalStrings hasTimingSafeEqual
              (Js.String_ (b_password b)) (Js.String_ (password o)) with
      | None => (Js.Rejected "RangeError", st)
      | Some validPass =>
          (Js.Resolved (validUser && validPass),
           Gate.console_log (if validUser && validPass then success else failed) st)
      end
  else
    let authorization := split_space (Js.or_else (h_Authorization req) "") in
    if is_Bearer (Js.String_ (item authorization 0)) then
      Gate.jwtVerify decode jwtSecret (Js.or_else (item authorization 1) "") now st
    else (Js.Resolved false, st).

(** The second [then]: the answer of [/signin], with the two tokens. *)
Definition issueSession (encode : Jwt.encoder) (jwtSecret : string) (now : Z)
  : Js.settled (string * string) :=
  match Gate.jwtSign encode jwtSecret false now,
        Gate.jwtSign encode jwtSecret true now with
  | Js.Resolved bearerToken, Js.Resolved queryToken =>
      Js.Resolved (bearerToken, queryToken)
  | Js.Rejected why, _ => Js.Rejected why
  | _, Js.Rejected why => Js.Rejected why
  end.

(** The whole [/signin] handler. *)
Definition signin (decode : Jwt.decoder) (encode : Jwt.encoder)
  (bcrypt_compare : string -> string -> Js.settled bool)
  (hasTimingSafeEqual : bool)
  (o : ServerOptions) (jwtSecret : string) (req : Request) (now : Z)
  (st : Gate.State) : Response * Gate.State :=
  if negb (String.eqb (method req) "POST") || negb (String.eqb (path req) "/")
  then (Next, st)
  else
    match authenticate decode bcrypt_compare hasTimingSafeEqual o jwtSecret
            req now st with
    | (Js.Rejected why, st') => (Unhandled why, st')
    | (Js.Resolved false, st') => (Json_fail, st')
    | (Js.Resolved true, st') =>
        match issueSession encode jwtSecret now with
        | Js.Resolved (bearerToken, queryToken) =>
            (Json_ok bearerToken queryToken, st')
        | Js.Rejected why => (Unhandled why, st')
        end
    end.

(** The token the middleware takes from the request: body field, then
    query parameter, then [Authorization: Bearer]; [None] is [undefined]. *)
Definition extract_token (req : Request) : Js.value :=
  let from_query_or_header :=
    if Js.truthy (q_redisCommanderQueryToken req)
    then q_redisCommanderQueryToken req
    else
      let authorization := split_space (Js.or_else (h_Authorization req) "") in
      if is_Bearer (Js.String_ (item authorization 0))
      then Some (Js.or_else (item authorization 1) "")
      else None in
  match body req with
  | Some b =>
      if Js.truthy (b_redisCommanderQueryToken b)
      then b_redisCommanderQueryToken b
      else from_query_or_header
  | None => from_query_or_header
  end.

(** The middleware in front of every route registered after [/signin]. *)
Definition middleware (decode : Jwt.decoder) (o : ServerOptions)
  (jwtSecret : string) (req : Request) (now : Z) (st : Gate.State)
  : Response * Gate.State :=
  if no_principal o then (Next, st)
  else
    let token := extract_token req in
    if negb (Js.truthy token) then
      (End_with 401 "Unauthorized - Missing Token", st)
    else
      match Gate.jwtVerify decode jwtSecret (Js.String_ token) now st with
      | (Js.Resolved true, st') => (Next, st')
      | (Js.Resolved false, st') =>
          (End_with 401 "Unauthorized - Token Invalid or Expired", st')
      | (Js.Rejected why, st') => (Unhandled why, st')
      end.

End Http.

(** ** The connection registry: [redisConnections], [logout], [login] *)

Module Registry.

Section Values.

(** The values passed as host, port, database index and password are not
    inspected beyond [==], truthiness and [parseInt]. *)
Variable V : Type.
Variable loose_eq : V -> V -> bool.      (* x == y *)
Variable truthy : V -> bool.
Variable parseInt : V -> V.
Variable zero : V.                       (* the number 0 *)
Variable default_db : V.                 (* options.db when the constructor gets no db *)

(** [instance.options] of an ioredis client. *)
Record Options := {
  o_port : V;
  o_host : V;
  o_dbIndex : V;
  o_password : V;
  o_db : V
}.

Record Client := {
  label : string;
  options : Options
}.

(** [new Redis({port, host, family: 4, dbIndex, password})] followed by
    [client.label = label]. *)
Definition Redis_new (label_ : string) (hostname port password dbIndex : V)
  : Client :=
  {| label := label_;
     options := {| o_port := port; o_host := hostname; o_dbIndex := dbIndex;
                   o_password := password; o_db := default_db |} |}.

(** The test inside the [forEach] callback of [logout], without
    [notRemoved]. *)
Definition same_target (hostname port db : V) (instance : Client) : bool :=
  loose_eq (o_host (options instance)) hostname
  && loose_eq (o_port (options instance)) port
  && loose_eq (o_db (options instance)) db.

(** [redisConnections.splice(index, 1)]: what stays and what is returned. *)
Definition splice1 (arr : list Client) (index : nat)
  : list Client * list Client :=
  (take index arr ++ drop (S index) arr, take 1 (drop index arr)).

(** The variables [logout] works on: the array, the flag, and the clients
    whose [quit()] was called. *)
Record LogoutLoop := {
  redisConnections : list Client;
  notRemoved : bool;
  quits : list Client
}.

(** [Array.prototype.forEach]: the length is read once, the indices
    [index .. index + todo - 1] are visited on the array as it is at that
    moment, and an index that is no longer in the array is skipped. *)
Fixpoint forEach_from (hostname port db : V) (todo index : nat)
  (l : LogoutLoop) : LogoutLoop :=
  match todo with
  | O => l
  | S todo' =>
      let l' :=
        match redisConnections l !! index with
        | None => l
        | Some instance =>
            if notRemoved l && same_target hostname port db instance then
              let '(remaining, connectionToClose) :=
                splice1 (redisConnections l) index in
              {| redisConnections := remaining;
                 notRemoved := false;
                 quits := quits l ++ take 1 connectionToClose |}
            else l
        end in
      forEach_from hostname port db todo' (S index) l'
  end.

(** [logout(hostname, port, db, callback)]: the array afterwards, the
    clients that were quit, and the argument [callback] was called with
    ([Some message] for an [Error], [None] for [null]). *)
Definition logout (hostname port db : V) (conns : list Client)
  : list Client * list Client * option string :=
  let l := forEach_from hostname port db (length conns) 0
             {| redisConnections := conns; notRemoved := true; quits := [] |} in
  (redisConnections l, quits l,
   if notRemoved l then Some "Could not remove " else None).

(** *** [login] *)

(** Everything a [login] call leaves in scope for its event handlers, the
    global array, and a record of what was done to the outside. *)
Record Login := {
  conns : list Client;             (* redisConnections *)
  client : Client;
  callback : bool;                 (* false once callback = null *)
  isPushed : bool;
  dbIndex : V;
  connectListeners : nat;          (* selectDatabase registered on "connect" *)
  authPending : bool;              (* client.auth sent, no reply yet *)
  selectPending : nat;             (* client.select sent, no reply yet *)
  called : list (option string);   (* arguments callback was called with *)
  released : nat                   (* client.quit(); client.disconnect() *)
}.

(** What the client can deliver to the handlers; [Some e] is an error. *)
Inductive Event :=
  | Error (err : string)
  | End_
  | Connect
  | AuthReply (err : option string)
  | SelectReply (err : option string).

(** Field updates. *)
Definition with_callback (s : Login) (cb : bool) (calls : list (option string))
  : Login :=
  {| conns := conns s; client := client s; callback := cb;
     isPushed := isPushed s; dbIndex := dbIndex s;
     connectListeners := connectListeners s; authPending := authPending s;
     selectPending := selectPending s; called := calls;
     released := released s |}.

Definition with_commands (s : Login) (listeners : nat) (auth : bool)
  (selects : nat) : Login :=
  {| conns := conns s; client := client s; callback := callback s;
     isPushed := isPushed s; dbIndex := dbIndex s;
     connectListeners := listeners; authPending := auth;
     selectPending := selects; called := called s;
     released := released s |}.

Definition with_dbIndex (s : Login) (v : V) : Login :=
  {| conns := conns s; client := client s; callback := callback s;
     isPushed := isPushed s; dbIndex := v;
     connectListeners := connectListeners s; authPending := authPending s;
     selectPending := selectPending s; called := called s;
     released := released s |}.

(** [client.quit(); client.disconnect();] *)
Definition quit_disconnect (s : Login) : Login :=
  {| conns := conns s; client := client s; callback := callback s;
     isPushed := isPushed s; dbIndex := dbIndex s;
     connectListeners := connectListeners s; authPending := authPending s;
     selectPending := selectPending s; called := called s;
     released := S (released s) |}.

(** [redisConnections.push(client); isPushed = true;] *)
Definition push_client (s : Login) : Login :=
  {| conns := conns s ++ [client s]; client := client s;
     callback := callback s; isPushed := true; dbIndex := dbIndex s;
     connectListeners := connectListeners s; authPending := authPending s;
     selectPending := selectPending s; called := called s;
     released := released s |}.

Definition onceCallback (err : option string) (s : Login) : Login :=
  if callback s then with_callback s false (called s ++ [err])
  else s.

(** One run of [selectDatabase] up to the call of [client.select];
    [parseInt] does not throw on the values passed here, so the [catch] is
    never entered. *)
Definition selectDatabase (s : Login) : Login :=
  let s := with_dbIndex s (parseInt (if truthy (dbIndex s) then dbIndex s else zero)) in
  with_commands s (connectListeners s) (authPending s) (S (selectPending s)).

(** The state when [login(label, hostname, port, password, dbIndex,
    callback)] returns: with a password [client.auth] has been sent and
    nothing listens to ["connect"] yet, without one [selectDatabase]
    listens to ["connect"]. *)
Definition login (label_ : string) (hostname port password dbIndex_ : V)
  (conns0 : list Client) : Login :=
  {| conns := conns0;
     client := Redis_new label_ hostname port password dbIndex_;
     callback := true;
     isPushed := false;
     dbIndex := dbIndex_;
     connectListeners := if truthy password then O else 1%nat;
     authPending := truthy password;
     selectPending := O;
     called := [];
     released := O |}.

(** One event; [None] when the client cannot deliver it (a reply to a
    command that is not outstanding). *)
Definition step (s : Login) (ev : Event) : option Login :=
  match ev with
  | Error err =>
      (* client.on("error", ...) *)
      let s := if isPushed s then s else quit_disconnect s in
      Some (onceCallback (Some err) s)
  | End_ =>
      (* client.on("end", ...): a line on the console *)
      Some s
  | Connect =>
      (* every registered selectDatabase runs *)
      Some (Nat.iter (connectListeners s) selectDatabase s)
  | AuthReply err =>
      (* the callback given to client.auth *)
      if authPending s then
        let s := with_commands s (connectListeners s) false (selectPending s) in
        match err with
        | Some e => Some (onceCallback (Some e) s)
        | None =>
            Some (with_commands s (S (connectListeners s)) (authPending s)
                    (selectPending s))
        end
      else None
  | SelectReply err =>
      (* the callback given to client.select *)
      match selectPending s with
      | O => None
      | S pending =>
          let s := with_commands s (connectListeners s) (authPending s) pending in
          match err with
          | Some e => Some (onceCallback (Some e) s)
          | None => Some (onceCallback None (push_client s))
          end
      end
  end.

Fixpoint run (s : Login) (evs : list Event) : option Login :=
  match evs with
  | [] => Some s
  | ev :: rest =>
      match step s ev with
      | Some s' => run s' rest
      | None => None
      end
  end.

(** A reply that completes the handshake. *)
Definition completes (ev : Event) : bool :=
  match ev with
  | SelectReply None => true
  | _ => false
  end.

(** An event that reports a failure to the handlers. *)
Definition fails (ev : Event) : bool :=
  match ev with
  | Error _ | AuthReply (Some _) | SelectReply (Some _) => true
  | _ => false
  end.

End Values.

Arguments o_port {V} _.
Arguments o_host {V} _.
Arguments o_dbIndex {V} _.
Arguments o_password {V} _.
Arguments o_db {V} _.
Arguments label {V} _.
Arguments options {V} _.
Arguments Redis_new {V} default_db label_ hostname port password dbIndex.
Arguments same_target {V} loose_eq hostname port db instance.
Arguments splice1 {V} arr index.
Arguments redisConnections {V} _.
Arguments notRemoved {V} _.
Arguments quits {V} _.
Arguments forEach_from {V} loose_eq hostname port db todo index l.
Arguments logout {V} loose_eq hostname port db conns.
Arguments conns {V} _.
Arguments client {V} _.
Arguments callback {V} _.
Arguments isPushed {V} _.
Arguments dbIndex {V} _.
Arguments connectListeners {V} _.
Arguments authPending {V} _.
Arguments selectPending {V} _.
Arguments called {V} _.
Arguments released {V} _.
Arguments with_callback {V} s cb calls.
Arguments with_commands {V} s listeners auth selects.
Arguments with_dbIndex {V} s v.
Arguments quit_disconnect {V} s.
Arguments push_client {V} s.
Arguments onceCallback {V} err s.
Arguments selectDatabase {V} truthy parseInt zero s.
Arguments login {V} truthy default_db label_ hostname port password dbIndex_ conns0.
Arguments step {V} truthy parseInt zero s ev.
Arguments run {V} truthy parseInt zero s evs.

End Registry.

(** ** A small token format and sample data, used to run the definitions *)

Module Sample.

(** Tokens of the form [flag.iat.exp.secret]: [flag] is [s] for a
    single-use token and [m] otherwise, [iat] and [exp] are decimal, and
    the last field stands for the signature. *)
Definition show (z : Z) : string := NilZero.string_of_int (Z.to_int z).

Definition read (s : string) : option Z :=
  Z.of_int <$> NilZero.int_of_string s.

Fixpoint fields_from (s : string) (cur : string) : list string :=
  match s with
  | EmptyString => [cur]
  | String c rest =>
      if Ascii.eqb c "." then cur :: fields_from rest ""
      else fields_from rest (cur +:+ String c "")
  end.

Definition encode : Jwt.encoder := fun secret p =>
  (if Jwt.singleUse p then "s" else "m")
  +:+ "." +:+ show (default 0 (Jwt.iat p))
  +:+ "." +:+ show (default 0 (Jwt.exp p))
  +:+ "." +:+ secret.

Definition decode : Jwt.decoder := fun secret token =>
  match fields_from token "" with
  | [flag; issued; expires; signature] =>
      if String.eqb signature secret
         && (String.eqb flag "s" || String.eqb flag "m") then
        match read issued, read expires with
        | Some i, Some e =>
            Some {| Jwt.iss := Some Jwt.issuer; Jwt.sub := Some Jwt.subject;
                    Jwt.iat := Some i; Jwt.nbf := None; Jwt.exp := Some e;
                    Jwt.singleUse := String.eqb flag "s" |}
        | _, _ => None
        end
      else None
  | _ => None
  end.

Definition secret : string := "c2VjcmV0".

(** A single-use token that expires 10^7 seconds after the epoch. *)
Definition far_token : string := "s.0.10000000." +:+ secret.

Definition admin : Http.ServerOptions :=
  {| Http.username := Some "admin"; Http.passwordHash := None;
     Http.password := Some "aa" |}.

Definition open_door : Http.ServerOptions :=
  {| Http.username := None; Http.passwordHash := None;
     Http.password := Some "aa" |}.

Definition post_signin (user pass : string) : Http.Request :=
  {| Http.method := "POST"; Http.path := "/"; Http.ip := "127.0.0.1";
     Http.body := Some {| Http.b_username := Some user;
                          Http.b_password := Some pass;
                          Http.b_redisCommanderQueryToken := None |};
     Http.q_redisCommanderQueryToken := None;
     Http.h_Authorization := None |}.

Definition get_with (body_token query_token header : Js.value) : Http.Request :=
  {| Http.method := "GET"; Http.path := "/apiv2/server/info";
     Http.ip := "127.0.0.1";
     Http.body := Some {| Http.b_username := None; Http.b_password := None;
                          Http.b_redisCommanderQueryToken := body_token |};
     Http.q_redisCommanderQueryToken := query_token;
     Http.h_Authorization := header |}.

(** Registry values: numbers, compared with [Z.eqb]. *)
Definition conn (name : string) (host port db : Z) : Registry.Client Z :=
  {| Registry.label := name;
     Registry.options :=
       {| Registry.o_port := port; Registry.o_host := host;
          Registry.o_dbIndex := db; Registry.o_password := 0;
          Registry.o_db := db |} |}.

Definition nonzero (z : Z) : bool := negb (z =? 0).

End Sample.

(** * Properties *)

(** ** [equalStrings] *)

Section EqualStrings.

Import Crypto.

Lemma diff_bits_zero (x y : Buffer) (acc : N) :
  length x = length y ->
  diff_bits x y acc = 0%N <-> acc = 0%N /\ x = y.
Proof.
  revert y acc.
  induction x as [|a x IH]; intros [|b y] acc Hlen; simpl in *; try discriminate.
  - tauto.
  - injection Hlen as Hlen.
    rewrite (IH y _ Hlen), N.lor_eq_0_iff, N.lxor_eq_0_iff.
    split.
    + intros [[-> ->] ->]. auto.
    + intros [-> [= -> ->]]. auto.
Qed.

Lemma timingSafeEqual_same_length (x y : Buffer) :
  length x = length y ->
  timingSafeEqual x y = Some (bool_decide (x = y)).
Proof.
  intros Hlen. unfold timingSafeEqual.
  rewrite Hlen, Nat.eqb_refl. f_equal.
  destruct (N.eqb_spec (diff_bits x y 0) 0) as [H|H].
  - apply diff_bits_zero in H as [_ ->]; [|done].
    by rewrite bool_decide_eq_true_2.
  - rewrite bool_decide_eq_false_2; [done|].
    intros ->. apply H. by apply diff_bits_zero.
Qed.

(** The two concatenations always have the same length, so the timing-safe
    primitive never throws, and it decides whether they are the same
    bytes. *)
Lemma equalStrings_concat (a b : jstring) :
  equalStrings true a b =
  Some (bool_decide (Buffer_from a ++ Buffer_from b
                     = Buffer_from b ++ Buffer_from a)).
Proof.
  unfold equalStrings, Buffer_concat. simpl. rewrite !app_nil_r.
  apply timingSafeEqual_same_length.
  rewrite !length_app. lia.
Qed.

Lemma equalStrings_total (h : bool) (a b : jstring) :
  exists r, equalStrings h a b = Some r.
Proof.
  destruct h.
  - rewrite equalStrings_concat. eauto.
  - unfold equalStrings. cbn [negb]. eauto.
Qed.

Lemma equalStrings_refl (h : bool) (a : jstring) :
  equalStrings h a a = Some true.
Proof.
  destruct h.
  - rewrite equalStrings_concat. by rewrite bool_decide_eq_true_2.
  - unfold equalStrings. cbn [negb]. by rewrite bool_decide_eq_true_2.
Qed.

Lemma units_of_string_inj (a b : string) :
  units_of_string a = units_of_string b -> a = b.
Proof.
  revert b. induction a as [|c a IH]; intros [|c' b]; try done.
  unfold units_of_string. simpl. intros [= Hc H].
  rewrite <- (ascii_N_embedding c), <- (ascii_N_embedding c'), Hc.
  f_equal. by apply IH.
Qed.

(** Without [crypto.timingSafeEqual] the comparison is [a === b]. *)
Lemma equalStrings_fallback (a b : string) :
  equalStrings false a b = Some true <-> a = b.
Proof.
  unfold equalStrings. cbn [negb]. split.
  - intros [= H]. apply bool_decide_eq_true in H.
    by apply units_of_string_inj.
  - intros ->. by rewrite bool_decide_eq_true_2.
Qed.

(** C1, at the input ["a"], ["aa"]: with [crypto.timingSafeEqual] present
    the function compares ["a" + "aa"] with ["aa" + "a"], which are the
    same three bytes, and answers [true] for two different strings; the
    branch without the primitive answers [false] on the same input. *)
Theorem equalStrings_accepts_a_aa :
  Crypto.equalStrings true "a" "aa" = Some true
  /\ "a" <> "aa"
  /\ Crypto.equalStrings false "a" "aa" = Some false.
Proof.
  split; [vm_compute; reflexivity | split; [discriminate | vm_compute; reflexivity]].
Qed.

End EqualStrings.

(** ** [jwtVerify] and the spent-token set *)

Section TokenVerification.

Import Gate.

Variable decode : Jwt.decoder.
Variable jwtSecret : string.

Local Abbreviation verify_at token t := (Jwt.verify decode token jwtSecret t).
Local Abbreviation jwtVerify_at token t st := (jwtVerify decode jwtSecret token t st).
Local Abbreviation step_ := (step decode jwtSecret).
Local Abbreviation run_ := (run decode jwtSecret).

Lemma verify_inr (token : string) (t : Z) (p : Jwt.Payload) :
  verify_at token t = inr p ->
  decode jwtSecret token = Some p
  /\ (forall e, Jwt.exp p = Some e -> Jwt.clockTimestamp t < e).
Proof.
  unfold Jwt.verify. destruct (decode jwtSecret token) as [q|]; [|done].
  destruct (Jwt.nbf q) as [n|].
  - destruct (Z.ltb_spec (Jwt.clockTimestamp t) n); [done|].
    destruct (Jwt.exp q) as [e|] eqn:He.
    + destruct (Z.leb_spec e (Jwt.clockTimestamp t)); [done|].
      repeat case_match; try done. intros [= <-]. split; [done|].
      intros e' He'. rewrite He in He'. injection He' as <-. lia.
    + repeat case_match; try done. intros [= <-]. split; [done|].
      intros e' He'. congruence.
  - destruct (Jwt.exp q) as [e|] eqn:He.
    + destruct (Z.leb_spec e (Jwt.clockTimestamp t)); [done|].
      repeat case_match; try done. intros [= <-]. split; [done|].
      intros e' He'. rewrite He in He'. injection He' as <-. lia.
    + repeat case_match; try done. intros [= <-]. split; [done|].
      intros e' He'. congruence.
Qed.

(** An expired token is rejected by the library whatever else holds. *)
Lemma verify_expired (token : string) (t : Z) (p : Jwt.Payload) (e : Z) :
  decode jwtSecret token = Some p ->
  Jwt.exp p = Some e ->
  e <= Jwt.clockTimestamp t ->
  exists err, verify_at token t = inl err.
Proof.
  intros Hd He Hle. unfold Jwt.verify. rewrite Hd, He.
  destruct (match Jwt.nbf p with Some n => _ | None => false end); [eauto|].
  destruct (Z.leb_spec e (Jwt.clockTimestamp t)); [eauto | lia].
Qed.

Lemma jwtVerify_error (token : string) (t : Z) (st : State) (err : Jwt.VerifyError) :
  verify_at token t = inl err ->
  jwtVerify_at token t st = (Js.Resolved false, record_verify token st).
Proof. intros H. unfold jwtVerify. by rewrite H. Qed.

Lemma jwtVerify_reusable (token : string) (t : Z) (st : State) (p : Jwt.Payload) :
  verify_at token t = inr p ->
  Jwt.singleUse p = false ->
  jwtVerify_at token t st = (Js.Resolved true, record_verify token st).
Proof. intros H Hs. unfold jwtVerify. by rewrite H, Hs. Qed.

Lemma jwtVerify_spent (token : string) (t : Z) (st : State) (p : Jwt.Payload) :
  verify_at token t = inr p ->
  Jwt.singleUse p = true ->
  token ∈ usedTokens st ->
  jwtVerify_at token t st =
  (Js.Resolved false,
   console_log "Single-Usage token already used" (record_verify token st)).
Proof.
  intros H Hs Hin. unfold jwtVerify. rewrite H, Hs.
  by rewrite bool_decide_eq_true_2.
Qed.

Lemma jwtVerify_fresh (token : string) (t : Z) (st : State) (p : Jwt.Payload) :
  verify_at token t = inr p ->
  Jwt.singleUse p = true ->
  token ∉ usedTokens st ->
  exists st',
    jwtVerify_at token t st = (Js.Resolved true, st')
    /\ usedTokens st' = {[ token ]} ∪ usedTokens st
    /\ timers st' =
       timers st ++
       match Jwt.exp p with
       | Some e =>
           if e =? 0 then []
           else [(setTimeout_due t ((e * 1 + 10) * 1000 - t), token)]
       | None => []
       end.
Proof.
  intros H Hs Hin. unfold jwtVerify. rewrite H, Hs.
  rewrite bool_decide_eq_false_2 by done.
  eexists. split; [reflexivity|].
  destruct (Jwt.exp p) as [e|]; [destruct (e =? 0)|]; simpl;
    by rewrite ?app_nil_r.
Qed.

(** Under the contract of the library the modelled function always gives
    a boolean. *)
Lemma jwtVerify_model_resolves (token : string) (t : Z) (st : State) :
  (exists b st', jwtVerify_at token t st = (Js.Resolved b, st'))
  /\ (forall err, verify_at token t = inl err ->
        fst (jwtVerify_at token t st) = Js.Resolved false).
Proof.
  split.
  - unfold jwtVerify. destruct (verify_at token t) as [err|p]; [eauto|].
    destruct (Jwt.singleUse p); [|eauto].
    case_bool_decide; eauto.
  - intros err H. by rewrite (jwtVerify_error _ _ _ _ H).
Qed.

(** [jwtVerify] is the promise of [jwtVerify_promise] when [jwt.verify]
    behaves as jsonwebtoken documents it. *)
Lemma jwtVerify_is_promise (token : string) (t : Z) (st : State) :
  jwtVerify_promise (jsonwebtoken decode token jwtSecret t) token t st
  = (Some (fst (jwtVerify_at token t st)), snd (jwtVerify_at token t st)).
Proof.
  unfold jwtVerify_promise, jsonwebtoken, jwtVerify.
  destruct (verify_at token t) as [err|p]; [done|].
  destruct (Jwt.singleUse p); [|done].
  by case_bool_decide.
Qed.

(** The promise does reject, or stay pending, when [jwt.verify] breaks the
    contract: the executor has no [try] and the promise no [reject]. *)
Lemma jwtVerify_promise_outside_contract (token : string) (t : Z) (st : State) :
  (forall why,
     fst (jwtVerify_promise (Throws why) token t st) = Some (Js.Rejected why))
  /\ fst (jwtVerify_promise Returns token t st) = None
  /\ fst (jwtVerify_promise (CallsBack None D_null) token t st)
     = Some (Js.Rejected "TypeError")
  /\ fst (jwtVerify_promise (CallsBack None D_undefined) token t st)
     = Some (Js.Rejected "TypeError").
Proof. done. Qed.


(** *** Reusable tokens *)

(** C10: a token that [jwt.verify] accepts and that does not carry
    [singleUse] is accepted by [jwtVerify] in every state, whatever was
    verified before, and the call leaves [usedTokens] and the timers as
    they were; so the middleware lets the request through when it finds
    such a token in the body field, the query parameter or the Bearer
    header. *)
Theorem reusable_token_always_accepted
  (token : string) (t : Z) (st : State) (p : Jwt.Payload)
  (o : Http.ServerOptions) (req : Http.Request) :
  verify_at token t = inr p ->
  Jwt.singleUse p = false ->
  (fst (jwtVerify_at token t st) = Js.Resolved true
   /\ usedTokens (snd (jwtVerify_at token t st)) = usedTokens st
   /\ timers (snd (jwtVerify_at token t st)) = timers st)
  /\ (Http.extract_token req = Some token -> token <> "" ->
      Http.no_principal o = false ->
      fst (Http.middleware decode o jwtSecret req t st) = Http.Next).
Proof.
  intros Hv Hs. split.
  - by rewrite (jwtVerify_reusable _ _ _ _ Hv Hs).
  - intros Hx Hne Hp. unfold Http.middleware. rewrite Hp, Hx. simpl.
    destruct (String.eqb_spec token ""); [done|]. simpl.
    by rewrite (jwtVerify_reusable _ _ _ _ Hv Hs).
Qed.

(** *** Single-use tokens along a run of the event loop *)

Lemma elem_of_without {A} (x : A) (i : nat) (l : list A) :
  x ∈ take i l ++ drop (S i) l -> x ∈ l.
Proof.
  intros Hin. apply elem_of_app in Hin as [Hin|Hin].
  - by apply (subseteq_take i).
  - by apply (subseteq_drop (S i)).
Qed.

Lemma step_keeps_unused (token : string) (w : World) (ev : Event) :
  ev <> Verify token ->
  token ∉ usedTokens (gate w) ->
  (forall d, (d, token) ∉ timers (gate w)) ->
  (token ∉ usedTokens (gate (fst (step_ w ev))))
  /\ (forall d, (d, token) ∉ timers (gate (fst (step_ w ev)))).
Proof.
  intros Hev Hu Ht. destruct ev as [tk|ms|i]; simpl.
  - assert (tk <> token) as Hne by congruence.
    assert (token ∉ ({[ tk ]} ∪ usedTokens (gate w) : gset string)) as Hu'.
    { rewrite elem_of_union, elem_of_singleton. intros [?|?]; [congruence|done]. }
    unfold jwtVerify.
    destruct (verify_at tk (now w)) as [err|q]; simpl; [done|].
    destruct (Jwt.singleUse q); simpl; [|done].
    case_bool_decide; simpl; [done|].
    destruct (Jwt.exp q) as [e|]; [destruct (e =? 0)|]; simpl.
    + done.
    + split; [done|].
      intros d Hin. apply elem_of_app in Hin as [Hin|Hin]; [by eapply Ht|].
      apply list_elem_of_singleton in Hin. congruence.
    + done.
  - done.
  - unfold fire.
    destruct (timers (gate w) !! i) as [[due tk]|] eqn:Hi; [|done].
    destruct (due <=? now w); [|done]. simpl. split.
    + rewrite elem_of_difference. tauto.
    + intros d Hin. apply (Ht d). by eapply elem_of_without.
Qed.

Lemma run_keeps_unused (token : string) (evs : list Event) (w : World) :
  Verify token ∉ evs ->
  token ∉ usedTokens (gate w) ->
  (forall d, (d, token) ∉ timers (gate w)) ->
  (token ∉ usedTokens (gate (run_ w evs)))
  /\ (forall d, (d, token) ∉ timers (gate (run_ w evs))).
Proof.
  revert w. induction evs as [|ev evs IH]; intros w Hno Hu Ht; simpl; [done|].
  apply not_elem_of_cons in Hno as [Hne Hno].
  destruct (step_keeps_unused token w ev) as [Hu' Ht']; [done..|].
  by apply IH.
Qed.

(** Once a single-use token has been accepted, at every later moment it is
    either still in [usedTokens] or past its expiry, and no timer can take
    it out of the set before expiry plus ten seconds. *)
Lemma step_keeps_spent (token : string) (p : Jwt.Payload) (w : World) (ev : Event) :
  decode jwtSecret token = Some p ->
  Jwt.singleUse p = true ->
  (token ∈ usedTokens (gate w)
   \/ exists e, Jwt.exp p = Some e /\ e <= Jwt.clockTimestamp (now w)) ->
  (forall d, (d, token) ∈ timers (gate w) ->
     exists e, Jwt.exp p = Some e /\ (e + 10) * 1000 <= d) ->
  (token ∈ usedTokens (gate (fst (step_ w ev)))
   \/ exists e, Jwt.exp p = Some e
        /\ e <= Jwt.clockTimestamp (now (fst (step_ w ev))))
  /\ (forall d, (d, token) ∈ timers (gate (fst (step_ w ev))) ->
        exists e, Jwt.exp p = Some e /\ (e + 10) * 1000 <= d).
Proof.
  intros Hd Hs Hin Ht. destruct ev as [tk|ms|i]; simpl.
  - unfold jwtVerify.
    destruct (verify_at tk (now w)) as [err|q] eqn:Hv; simpl; [done|].
    destruct (Jwt.singleUse q) eqn:Hq; simpl; [|done].
    case_bool_decide as Hused; simpl; [done|].
    assert (tk <> token) as Hne.
    { intros ->. destruct Hin as [Hin|(e & He & Hle)]; [done|].
      destruct (verify_expired token (now w) p e Hd He Hle) as [err Herr].
      congruence. }
    assert (token ∈ ({[ tk ]} ∪ usedTokens (gate w) : gset string)
            \/ exists e, Jwt.exp p = Some e /\ e <= Jwt.clockTimestamp (now w))
      as Hin'.
    { destruct Hin as [Hin|Hin]; [left|by right].
      rewrite elem_of_union. by right. }
    destruct (Jwt.exp q) as [e|]; [destruct (e =? 0)|]; simpl; [done| |done].
    split; [done|].
    intros d Hd'. apply elem_of_app in Hd' as [Hd'|Hd']; [by apply Ht|].
    apply list_elem_of_singleton in Hd'. congruence.
  - split; [|done]. destruct Hin as [Hin|(e & He & Hle)]; [by left|right].
    exists e. split; [done|]. unfold Jwt.clockTimestamp in *.
    etrans; [exact Hle|]. apply Z.div_le_mono; lia.
  - unfold fire.
    destruct (timers (gate w) !! i) as [[due tk]|] eqn:Hi; [|done].
    destruct (Z.leb_spec due (now w)) as [Hdue|Hdue]; [|done]. simpl. split.
    + destruct (decide (tk = token)) as [->|Hne].
      * right. destruct (Ht due) as (e & He & Hle).
        { eapply list_elem_of_lookup_2. exact Hi. }
        exists e. split; [done|]. unfold Jwt.clockTimestamp.
        apply Z.div_le_lower_bound; lia.
      * destruct Hin as [Hin|Hin]; [left|by right].
        rewrite elem_of_difference, elem_of_singleton. split; [done|congruence].
    + intros d Hd'. apply Ht. by eapply elem_of_without.
Qed.

Lemma run_keeps_spent (token : string) (p : Jwt.Payload) (evs : list Event) (w : World) :
  decode jwtSecret token = Some p ->
  Jwt.singleUse p = true ->
  (token ∈ usedTokens (gate w)
   \/ exists e, Jwt.exp p = Some e /\ e <= Jwt.clockTimestamp (now w)) ->
  (forall d, (d, token) ∈ timers (gate w) ->
     exists e, Jwt.exp p = Some e /\ (e + 10) * 1000 <= d) ->
  (token ∈ usedTokens (gate (run_ w evs))
   \/ exists e, Jwt.exp p = Some e /\ e <= Jwt.clockTimestamp (now (run_ w evs)))
  /\ (forall d, (d, token) ∈ timers (gate (run_ w evs)) ->
        exists e, Jwt.exp p = Some e /\ (e + 10) * 1000 <= d).
Proof.
  intros Hd Hs. revert w.
  induction evs as [|ev evs IH]; intros w Hin Ht; simpl; [done|].
  destruct (step_keeps_spent token p w ev Hd Hs Hin Ht) as [Hin' Ht'].
  by apply IH.
Qed.

(** In such a state the token is refused. *)
Lemma spent_refused (token : string) (p : Jwt.Payload) (w : World) :
  decode jwtSecret token = Some p ->
  Jwt.singleUse p = true ->
  (token ∈ usedTokens (gate w)
   \/ exists e, Jwt.exp p = Some e /\ e <= Jwt.clockTimestamp (now w)) ->
  snd (step_ w (Verify token)) = Some (Js.Resolved false).
Proof.
  intros Hd Hs Hin. simpl.
  destruct (verify_at token (now w)) as [err|q] eqn:Hv.
  - by rewrite (jwtVerify_error _ _ _ _ Hv).
  - destruct (verify_inr _ _ _ Hv) as [Hd' Hexp].
    assert (q = p) as -> by congruence.
    destruct Hin as [Hin|(e & He & Hle)].
    + by rewrite (jwtVerify_spent _ _ _ _ Hv Hs Hin).
    + specialize (Hexp e He). lia.
Qed.

(** The first acceptance of a single-use token whose eviction delay fits a
    timer, and every verification after it. *)
Lemma accepted_then_refused
  (t0 : Z) (before : list Event) (token : string) (p : Jwt.Payload) (w : World) :
  w = run_ (boot t0) before ->
  Verify token ∉ before ->
  verify_at token (now w) = inr p ->
  Jwt.singleUse p = true ->
  (forall e, Jwt.exp p = Some e -> (e + 10) * 1000 - now w <= TIMEOUT_MAX) ->
  snd (step_ w (Verify token)) = Some (Js.Resolved true)
  /\ (forall later : list Event,
        snd (step_ (run_ (fst (step_ w (Verify token))) later) (Verify token))
        = Some (Js.Resolved false)).
Proof.
  intros Hw Hno Hv Hs Hrange.
  destruct (run_keeps_unused token before (boot t0) Hno) as [Hu Ht].
  { simpl. apply not_elem_of_empty. }
  { intros d. simpl. apply not_elem_of_nil. }
  rewrite <- Hw in Hu, Ht.
  destruct (verify_inr _ _ _ Hv) as [Hd Hexp].
  destruct (jwtVerify_fresh token (now w) (gate w) p Hv Hs Hu)
    as (st' & Hrun & Hused & Htimers).
  assert (step_ w (Verify token)
          = ({| now := now w; gate := st' |}, Some (Js.Resolved true))) as Hstep.
  { simpl. by rewrite Hrun. }
  rewrite Hstep. simpl. split; [done|].
  intros later. apply (spent_refused token p); [done..|].
  apply run_keeps_spent; [done..| |]; simpl.
  - left. rewrite Hused, elem_of_union, elem_of_singleton. by left.
  - intros d Hin. rewrite Htimers in Hin.
    apply elem_of_app in Hin as [Hin|Hin]; [by destruct (Ht d)|].
    destruct (Jwt.exp p) as [e|] eqn:He; [|by apply not_elem_of_nil in Hin].
    destruct (e =? 0); [by apply not_elem_of_nil in Hin|].
    apply list_elem_of_singleton in Hin. injection Hin as ->.
    exists e. split; [done|].
    specialize (Hexp e eq_refl). specialize (Hrange e eq_refl).
    unfold Jwt.clockTimestamp in Hexp. unfold setTimeout_due.
    assert (now w < e * 1000).
    { pose proof (Z.mul_div_le (now w) 1000).
      pose proof (Z.mod_pos_bound (now w) 1000).
      pose proof (Z.div_mod (now w) 1000). lia. }
    destruct (Z.leb_spec 1 ((e * 1 + 10) * 1000 - now w)); [|lia].
    destruct (Z.leb_spec ((e * 1 + 10) * 1000 - now w) TIMEOUT_MAX); simpl; lia.
Qed.


End TokenVerification.

(** ** Issued tokens *)

Section Sessions.

Import Gate.

Variable decode : Jwt.decoder.
Variable encode : Jwt.encoder.
Variable jwtSecret : string.

Lemma clock_after_ttl (t t' : Z) :
  t + 60000 <= t' -> Jwt.clockTimestamp t + 60 <= Jwt.clockTimestamp t'.
Proof.
  intros H. unfold Jwt.clockTimestamp.
  replace (t / 1000 + 60) with ((t + 60 * 1000) / 1000)
    by (rewrite Z.div_add; lia).
  apply Z.div_le_mono; lia.
Qed.

Lemma verify_claims (single : bool) (token : string) (t t' : Z) :
  decode jwtSecret token = Some (Jwt.claims single t) ->
  Jwt.clockTimestamp t' < Jwt.clockTimestamp t + 60 ->
  Jwt.verify decode token jwtSecret t' = inr (Jwt.claims single t).
Proof.
  intros Hd Hlt. unfold Jwt.verify. rewrite Hd. simpl.
  unfold Jwt.expiresIn.
  destruct (Z.leb_spec (Jwt.clockTimestamp t + 60) (Jwt.clockTimestamp t'));
    [lia|].
  reflexivity.
Qed.

(** C7: let the bearer token be what [jwtSign(jwtSecret, {})] produced at
    time [t], and let the library decode what it signed.  Verified at the
    same moment -- and at any moment whose clock second is less than sixty
    after that of [t] -- the token is accepted; verified once sixty
    seconds have elapsed it is refused.  More generally a token whose
    [exp] has passed is refused whether its signature verifies or not. *)
Theorem bearer_token_round_trip (t : Z) (st : State) :
  decode jwtSecret (Jwt.sign encode false jwtSecret t)
  = Some (Jwt.claims false t) ->
  Http.issueSession encode jwtSecret t
  = Js.Resolved (Jwt.sign encode false jwtSecret t,
                 Jwt.sign encode true jwtSecret t)
  /\ fst (jwtVerify decode jwtSecret (Jwt.sign encode false jwtSecret t) t st)
     = Js.Resolved true
  /\ (forall t', Jwt.clockTimestamp t' < Jwt.clockTimestamp t + 60 ->
        fst (jwtVerify decode jwtSecret (Jwt.sign encode false jwtSecret t) t' st)
        = Js.Resolved true)
  /\ (forall t', t + 60000 <= t' ->
        fst (jwtVerify decode jwtSecret (Jwt.sign encode false jwtSecret t) t' st)
        = Js.Resolved false)
  /\ (forall token t',
        (forall p, decode jwtSecret token = Some p ->
           exists e, Jwt.exp p = Some e /\ e <= Jwt.clockTimestamp t') ->
        fst (jwtVerify decode jwtSecret token t' st) = Js.Resolved false).
Proof.
  intros Hd.
  assert (forall token t',
            (forall p, decode jwtSecret token = Some p ->
               exists e, Jwt.exp p = Some e /\ e <= Jwt.clockTimestamp t') ->
            fst (jwtVerify decode jwtSecret token t' st) = Js.Resolved false)
    as Hexpired.
  { intros token t' H.
    destruct (decode jwtSecret token) as [p|] eqn:Hp.
    - destruct (H p eq_refl) as (e & He & Hle).
      destruct (verify_expired decode jwtSecret token t' p e Hp He Hle) as [err Herr].
      by rewrite (jwtVerify_error _ _ _ _ _ _ Herr).
    - unfold jwtVerify, Jwt.verify. by rewrite Hp. }
  split; [done|]. split; [|split; [|split; [|done]]].
  - rewrite (jwtVerify_reusable _ _ _ _ _ (Jwt.claims false t)); [done| |done].
    apply verify_claims; [done|lia].
  - intros t' Hlt.
    rewrite (jwtVerify_reusable _ _ _ _ _ (Jwt.claims false t)); [done| |done].
    by apply verify_claims.
  - intros t' Hle. apply Hexpired. intros p Hp.
    rewrite Hd in Hp. injection Hp as <-. simpl.
    eexists. split; [done|]. by apply clock_after_ttl.
Qed.

(** The query token of [issueSession] always fits the timer: verified at
    or after the time of issue, its eviction delay is at most 70 s. *)
Lemma issued_token_timer_fits (single : bool) (t t' : Z) :
  t <= t' ->
  forall e, Jwt.exp (Jwt.claims single t) = Some e ->
    (e + 10) * 1000 - t' <= TIMEOUT_MAX.
Proof.
  intros Hle e [= <-]. unfold Jwt.clockTimestamp, Jwt.expiresIn, TIMEOUT_MAX.
  pose proof (Z.mul_div_le t 1000). lia.
Qed.

(** The query token of [issueSession]: accepted at its first verification
    within the minute, refused at every later one. *)
Lemma query_token_accepted_once (t t0 : Z) (before : list Event) (w : World) :
  decode jwtSecret (Jwt.sign encode true jwtSecret t)
  = Some (Jwt.claims true t) ->
  w = run decode jwtSecret (boot t0) before ->
  Verify (Jwt.sign encode true jwtSecret t) ∉ before ->
  t <= now w ->
  Jwt.clockTimestamp (now w) < Jwt.clockTimestamp t + 60 ->
  snd (step decode jwtSecret w (Verify (Jwt.sign encode true jwtSecret t)))
  = Some (Js.Resolved true)
  /\ (forall later : list Event,
        snd (step decode jwtSecret
               (run decode jwtSecret
                  (fst (step decode jwtSecret w
                          (Verify (Jwt.sign encode true jwtSecret t))))
                  later)
               (Verify (Jwt.sign encode true jwtSecret t)))
        = Some (Js.Resolved false)).
Proof.
  intros Hd Hw Hno Hle Hlt.
  apply (accepted_then_refused decode jwtSecret t0 before _ (Jwt.claims true t));
    try done.
  - by apply verify_claims.
  - by apply issued_token_timer_fits.
Qed.

End Sessions.

(** ** The [/signin] credential check and the middleware *)

Section HttpGate.

Import Http.

Variable decode : Jwt.decoder.
Variable bcrypt_compare : string -> string -> Js.settled bool.
Variable jwtSecret : string.

Lemma no_principal_true (o : ServerOptions) :
  no_principal o = true <->
  Js.truthy (username o) = false
  \/ (Js.truthy (password o) = false /\ Js.truthy (passwordHash o) = false).
Proof.
  unfold no_principal.
  destruct (Js.truthy (username o)), (Js.truthy (password o)),
    (Js.truthy (passwordHash o)); simpl; intuition congruence.
Qed.

(** C8: when the configured username is missing or empty, or both the
    password and the password hash are, the credential check of [/signin]
    resolves to [true] for every request -- whatever username and
    password it carries, empty strings included -- and the middleware
    calls [next()] for every request, with or without a token; neither
    touches the state. *)
Theorem no_principal_admits_everything
  (hasTimingSafeEqual : bool) (o : ServerOptions) (req : Request) (t : Z)
  (st : Gate.State) :
  Js.truthy (username o) = false
  \/ (Js.truthy (password o) = false /\ Js.truthy (passwordHash o) = false) ->
  authenticate decode bcrypt_compare hasTimingSafeEqual o jwtSecret req t st
  = (Js.Resolved true, st)
  /\ middleware decode o jwtSecret req t st = (Next, st).
Proof.
  intros H. apply no_principal_true in H.
  unfold authenticate, middleware. by rewrite H.
Qed.

(** What the credential check computes for a plaintext password, when a
    username or a password was posted. *)
Lemma authenticate_plaintext
  (hasTimingSafeEqual : bool) (o : ServerOptions) (req : Request) (t : Z)
  (st : Gate.State) (user pass : Js.value) (token : Js.value) :
  no_principal o = false ->
  Js.truthy (passwordHash o) = false ->
  body req = Some {| b_username := user; b_password := pass;
                     b_redisCommanderQueryToken := token |} ->
  Js.truthy user || Js.truthy pass = true ->
  exists validPass,
    Crypto.equalStrings hasTimingSafeEqual (Js.String_ pass)
      (Js.String_ (password o)) = Some validPass
    /\ fst (authenticate decode bcrypt_compare hasTimingSafeEqual o jwtSecret
              req t st)
       = Js.Resolved
           (String.eqb (Js.String_ user) (Js.String_ (username o)) && validPass).
Proof.
  intros Hp Hh Hb Hc.
  destruct (equalStrings_total hasTimingSafeEqual (Js.String_ pass)
              (Js.String_ (password o))) as [validPass Heq].
  exists validPass. split; [done|].
  unfold authenticate, has_credentials. rewrite Hp, Hb. simpl.
  by rewrite Hc, Hh, Heq.
Qed.

(** On a Node without [crypto.timingSafeEqual] the check is exactly
    "username equal and password equal". *)
Lemma authenticate_plaintext_fallback
  (o : ServerOptions) (req : Request) (t : Z) (st : Gate.State)
  (user pass : string) (token : Js.value) :
  no_principal o = false ->
  Js.truthy (passwordHash o) = false ->
  body req = Some {| b_username := Some user; b_password := Some pass;
                     b_redisCommanderQueryToken := token |} ->
  Js.truthy (Some user) || Js.truthy (Some pass) = true ->
  fst (authenticate decode bcrypt_compare false o jwtSecret req t st)
  = Js.Resolved true
  <-> user = Js.String_ (username o) /\ pass = Js.String_ (password o).
Proof.
  intros Hp Hh Hb Hc.
  destruct (authenticate_plaintext false o req t st (Some user) (Some pass)
              token Hp Hh Hb Hc) as (validPass & Heq & ->).
  simpl in Heq. split.
  - intros [= H]. apply andb_true_iff in H as [H1 ->].
    apply String.eqb_eq in H1. split; [done|].
    by apply equalStrings_fallback.
  - intros [-> Hpass]. apply equalStrings_fallback in Hpass.
    rewrite Hpass in Heq. injection Heq as <-. simpl.
    by rewrite String.eqb_refl.
Qed.

(** C3, at the configuration username ["admin"], password ["aa"] and the
    posted pair username ["admin"], password ["a"]: the plaintext check
    goes through [equalStrings], which takes ["a"] for ["aa"], so the
    credential check resolves to [true] for a wrong password (and a
    session is issued).  Without [crypto.timingSafeEqual] the same request
    is refused. *)
Theorem authenticate_accepts_wrong_password (t : Z) (st : Gate.State) :
  password Sample.admin = Some "aa"
  /\ fst (authenticate decode bcrypt_compare true Sample.admin jwtSecret
            (Sample.post_signin "admin" "a") t st)
     = Js.Resolved true
  /\ fst (signin decode Sample.encode bcrypt_compare true Sample.admin
            Sample.secret (Sample.post_signin "admin" "a") 0 st)
     = Json_ok "m.0.60.c2VjcmV0" "s.0.60.c2VjcmV0"
  /\ fst (authenticate decode bcrypt_compare false Sample.admin jwtSecret
            (Sample.post_signin "admin" "a") t st)
     = Js.Resolved false.
Proof. split; [|split; [|split]]; vm_compute; reflexivity. Qed.

(** C6: with a principal configured, the middleware takes the token from
    the body field if that is a non-empty string, else from the query
    parameter if that is one, else from the second word of an
    [Authorization] header whose first word is [Bearer]; without a token
    it ends the request with 401 "Unauthorized - Missing Token" and
    [jwt.verify] is not called; with a token it calls [jwtVerify] on it
    once, and ends the request with 401 "Unauthorized - Token Invalid or
    Expired" when that resolves to [false] and calls [next()] when it
    resolves to [true]. *)
Theorem middleware_gate (o : ServerOptions) (req : Request) (t : Z)
  (st : Gate.State) :
  no_principal o = false ->
  (* where the token comes from *)
  (forall b, body req = Some b ->
     Js.truthy (b_redisCommanderQueryToken b) = true ->
     extract_token req = b_redisCommanderQueryToken b)
  /\ ((forall b, body req = Some b ->
         Js.truthy (b_redisCommanderQueryToken b) = false) ->
      Js.truthy (q_redisCommanderQueryToken req) = true ->
      extract_token req = q_redisCommanderQueryToken req)
  /\ ((forall b, body req = Some b ->
         Js.truthy (b_redisCommanderQueryToken b) = false) ->
      Js.truthy (q_redisCommanderQueryToken req) = false ->
      extract_token req =
      let authorization := split_space (Js.or_else (h_Authorization req) "") in
      if is_Bearer (Js.String_ (item authorization 0))
      then Some (Js.or_else (item authorization 1) "")
      else None)
  (* no token *)
  /\ (Js.truthy (extract_token req) = false ->
      middleware decode o jwtSecret req t st
      = (End_with 401 "Unauthorized - Missing Token", st))
  (* a token *)
  /\ (forall token, extract_token req = Some token -> token <> "" ->
      exists ok st',
        Gate.jwtVerify decode jwtSecret token t st = (Js.Resolved ok, st')
        /\ Gate.verifyCalls st' = Gate.verifyCalls st ++ [token]
        /\ middleware decode o jwtSecret req t st
           = (if ok then Next
              else End_with 401 "Unauthorized - Token Invalid or Expired",
              st')).
Proof.
  intros Hp. repeat apply conj.
  - intros b Hb Ht. unfold extract_token. by rewrite Hb, Ht.
  - intros Hb Hq. unfold extract_token. rewrite Hq.
    destruct (body req) as [b|]; [|done]. by rewrite (Hb b eq_refl).
  - intros Hb Hq. unfold extract_token. rewrite Hq.
    destruct (body req) as [b|]; [|done]. by rewrite (Hb b eq_refl).
  - intros Hno. unfold middleware. by rewrite Hp, Hno.
  - intros token Hx Hne. unfold middleware. rewrite Hp, Hx. simpl.
    destruct (String.eqb_spec token ""); [done|]. simpl.
    destruct (jwtVerify_model_resolves decode jwtSecret token t st)
      as [(ok & st' & Hv) _].
    exists ok, st'. rewrite Hv. split; [done|]. split; [|by destruct ok].
    revert Hv. unfold Gate.jwtVerify.
    destruct (Jwt.verify decode token jwtSecret t) as [err|q].
    { by intros [= <- <-]. }
    destruct (Jwt.singleUse q); [|by intros [= <- <-]].
    case_bool_decide; [by intros [= <- <-]|].
    intros [= <- <-].
    destruct (Jwt.exp q) as [e|]; [destruct (e =? 0)|]; done.
Qed.

End HttpGate.

(** ** [logout] *)

Section Logout.

Import Registry.

Variable V : Type.
Variable loose_eq : V -> V -> bool.
Variables hostname port db : V.

Local Abbreviation matches := (same_target loose_eq hostname port db).
Local Abbreviation forEach := (forEach_from loose_eq hostname port db).

Lemma forEach_split (a b index : nat) (l : LogoutLoop V) :
  forEach (a + b)%nat index l = forEach b (index + a)%nat (forEach a index l).
Proof.
  revert index l. induction a as [|a IH]; intros index l; simpl.
  - by rewrite Nat.add_0_r.
  - rewrite IH. f_equal. lia.
Qed.

(** After the removal the callback of [forEach] does nothing more. *)
Lemma forEach_removed (todo index : nat) (l : LogoutLoop V) :
  notRemoved l = false -> forEach todo index l = l.
Proof.
  revert index l. induction todo as [|todo IH]; intros index l Hn; simpl; [done|].
  rewrite Hn. simpl.
  destruct (redisConnections l !! index); by apply IH.
Qed.

(** Indices holding clients that do not match are passed over. *)
Lemma forEach_passes (todo index : nat) (l : LogoutLoop V) :
  (forall i c, (index <= i < index + todo)%nat ->
     redisConnections l !! i = Some c -> matches c = false) ->
  forEach todo index l = l.
Proof.
  revert index l. induction todo as [|todo IH]; intros index l H; simpl; [done|].
  destruct (redisConnections l !! index) as [c|] eqn:Hc.
  - rewrite (H index c) by (done || lia). rewrite andb_false_r.
    apply IH. intros i c' Hi. apply H. lia.
  - apply IH. intros i c' Hi. apply H. lia.
Qed.

Lemma splice1_middle (pre post : list (Client V)) (c : Client V) :
  splice1 (pre ++ c :: post) (length pre) = (pre ++ post, [c]).
Proof.
  unfold splice1. f_equal.
  - rewrite take_app_length. f_equal.
    rewrite (cons_middle c pre post), app_assoc.
    replace (S (length pre)) with (length (pre ++ [c]))
      by (rewrite length_app; simpl; lia).
    by rewrite drop_app_length.
  - by rewrite drop_app_length.
Qed.

(** C4: if no open client has the given host, port and db (in the sense
    of [==]), [logout] leaves [redisConnections] as it is, quits nothing
    and calls back with the error; if [c] is the first client in array
    order that has them, [logout] takes exactly this entry out of the
    array -- everything before and after it stays, in order, other
    matching clients included -- calls [quit()] on [c] and on no other
    client, and calls back with [null]. *)
Theorem logout_removes_first_match (conns : list (Client V)) :
  ((forall c, c ∈ conns -> matches c = false) ->
   logout loose_eq hostname port db conns
   = (conns, [], Some "Could not remove "))
  /\ (forall pre c post,
        conns = pre ++ c :: post ->
        (forall x, x ∈ pre -> matches x = false) ->
        matches c = true ->
        logout loose_eq hostname port db conns = (pre ++ post, [c], None)).
Proof.
  split.
  - intros Hnone. unfold logout. rewrite forEach_passes; [done|].
    intros i c _ Hc. apply Hnone. by eapply list_elem_of_lookup_2.
  - intros pre c post -> Hpre Hc. unfold logout.
    rewrite length_app. simpl length.
    rewrite forEach_split. simpl (0 + _)%nat.
    rewrite (forEach_passes (length pre) 0).
    2:{ intros i x [_ Hi] Hx. cbn [redisConnections] in Hx.
        rewrite lookup_app_l in Hx by done.
        apply Hpre. by eapply list_elem_of_lookup_2. }
    cbn [forEach_from redisConnections notRemoved quits].
    rewrite list_lookup_middle by done.
    rewrite Hc, splice1_middle. cbn [andb take app].
    by rewrite forEach_removed.
Qed.

End Logout.

(** ** [login] *)

Section Login.

Import Registry.

Variable V : Type.
Variable truthy : V -> bool.
Variable parseInt : V -> V.
Variable zero : V.
Variable default_db : V.

Local Abbreviation step_ := (step truthy parseInt zero).
Local Abbreviation run_ := (run truthy parseInt zero).
Local Abbreviation selectDatabase_ := (selectDatabase truthy parseInt zero).

Lemma onceCallback_conns (err : option string) (s : Login V) :
  conns (onceCallback err s) = conns s.
Proof. unfold onceCallback. by destruct (callback s). Qed.

Lemma onceCallback_pending (err : option string) (s : Login V) :
  callback s = true ->
  callback (onceCallback err s) = false
  /\ called (onceCallback err s) = called s ++ [err].
Proof. intros H. unfold onceCallback. by rewrite H. Qed.

Lemma onceCallback_spent (err : option string) (s : Login V) :
  callback s = false -> onceCallback err s = s.
Proof. intros H. unfold onceCallback. by rewrite H. Qed.

Lemma selectDatabase_iter (n : nat) (s : Login V) :
  conns (Nat.iter n selectDatabase_ s) = conns s
  /\ callback (Nat.iter n selectDatabase_ s) = callback s
  /\ called (Nat.iter n selectDatabase_ s) = called s.
Proof. induction n as [|n IH]; simpl; [done|]. exact IH. Qed.

(** The array only changes when a [select] succeeds. *)
Lemma step_conns (s s' : Login V) (ev : Event) :
  step_ s ev = Some s' ->
  completes ev = false ->
  conns s' = conns s.
Proof.
  destruct ev as [err| | |[e|]|[e|]]; simpl; intros Hs Hc; try done.
  - injection Hs as <-. rewrite onceCallback_conns. by destruct (isPushed s).
  - by injection Hs as <-.
  - injection Hs as <-. apply selectDatabase_iter.
  - destruct (authPending s); [|done]. injection Hs as <-.
    by rewrite onceCallback_conns.
  - destruct (authPending s); [|done]. by injection Hs as <-.
  - destruct (selectPending s); [done|]. injection Hs as <-.
    by rewrite onceCallback_conns.
Qed.

(** While the callback has not been called: an event that reports a
    failure calls it with that error, and any other event short of a
    successful [select] leaves it uncalled. *)
Lemma step_pending (s s' : Login V) (ev : Event) :
  step_ s ev = Some s' ->
  completes ev = false ->
  callback s = true ->
  called s = [] ->
  if fails ev
  then callback s' = false /\ exists e, called s' = [Some e]
  else callback s' = true /\ called s' = [].
Proof.
  destruct ev as [err| | |[e|]|[e|]]; simpl; intros Hs Hc Hcb Hcalled; try done.
  - injection Hs as <-.
    destruct (isPushed s);
      (edestruct (onceCallback_pending (Some err)) as [-> ->]; [|simpl];
       [done|]); rewrite Hcalled; eauto.
  - by injection Hs as <-.
  - injection Hs as <-.
    destruct (selectDatabase_iter (connectListeners s) s) as (_ & -> & ->).
    done.
  - destruct (authPending s); [|done]. injection Hs as <-.
    edestruct (onceCallback_pending (Some e)) as [-> ->]; [|simpl]; [done|].
    rewrite Hcalled. eauto.
  - destruct (authPending s); [|done]. by injection Hs as <-.
  - destruct (selectPending s); [done|]. injection Hs as <-.
    edestruct (onceCallback_pending (Some e)) as [-> ->]; [|simpl]; [done|].
    rewrite Hcalled. eauto.
Qed.

(** Once the callback has been called, no event calls it again. *)
Lemma step_spent (s s' : Login V) (ev : Event) :
  step_ s ev = Some s' ->
  callback s = false ->
  callback s' = false /\ called s' = called s.
Proof.
  destruct ev as [err| | |[e|]|[e|]]; simpl; intros Hs Hcb.
  - injection Hs as <-. rewrite onceCallback_spent; by destruct (isPushed s).
  - by injection Hs as <-.
  - injection Hs as <-.
    destruct (selectDatabase_iter (connectListeners s) s) as (_ & -> & ->).
    done.
  - destruct (authPending s); [|done]. injection Hs as <-.
    by rewrite onceCallback_spent.
  - destruct (authPending s); [|done]. by injection Hs as <-.
  - destruct (selectPending s); [done|]. injection Hs as <-.
    by rewrite onceCallback_spent.
  - destruct (selectPending s); [done|]. injection Hs as <-.
    by rewrite onceCallback_spent.
Qed.

Lemma run_spent (evs : list Event) (s s' : Login V) :
  run_ s evs = Some s' ->
  callback s = false ->
  callback s' = false /\ called s' = called s.
Proof.
  revert s. induction evs as [|ev evs IH]; simpl; intros s Hr Hcb.
  - by injection Hr as <-.
  - destruct (step_ s ev) as [s1|] eqn:Hs; [|done].
    destruct (step_spent _ _ _ Hs Hcb) as [Hcb1 <-].
    by apply IH.
Qed.

Lemma run_conns (evs : list Event) (s s' : Login V) :
  run_ s evs = Some s' ->
  (forall ev, ev ∈ evs -> completes ev = false) ->
  conns s' = conns s.
Proof.
  revert s. induction evs as [|ev evs IH]; simpl; intros s Hr Hc.
  - by injection Hr as <-.
  - destruct (step_ s ev) as [s1|] eqn:Hs; [|done].
    rewrite (IH s1 Hr).
    + apply (step_conns _ _ _ Hs). apply Hc. by left.
    + intros ev' Hin. apply Hc. by right.
Qed.

Lemma run_failure (evs : list Event) (s s' : Login V) :
  run_ s evs = Some s' ->
  (forall ev, ev ∈ evs -> completes ev = false) ->
  (exists ev, ev ∈ evs /\ fails ev = true) ->
  callback s = true ->
  called s = [] ->
  callback s' = false /\ exists e, called s' = [Some e].
Proof.
  revert s. induction evs as [|ev evs IH]; simpl; intros s Hr Hc Hf Hcb Hcalled.
  - destruct Hf as (ev & Hin & _). by apply not_elem_of_nil in Hin.
  - destruct (step_ s ev) as [s1|] eqn:Hs; [|done].
    assert (completes ev = false) as Hev by (apply Hc; by left).
    pose proof (step_pending _ _ _ Hs Hev Hcb Hcalled) as Hstep.
    destruct (fails ev) eqn:Hfails.
    + destruct Hstep as [Hcb1 [e He]].
      destruct (run_spent _ _ _ Hr Hcb1) as [-> ->]. eauto.
    + destruct Hstep as [Hcb1 Hcalled1].
      apply (IH s1); try done.
      * intros ev' Hin. apply Hc. by right.
      * destruct Hf as (ev' & Hin & Hf').
        apply elem_of_cons in Hin as [->|Hin]; [congruence|eauto].
Qed.

(** After a failed [auth] nothing listens to ["connect"] and no command is
    outstanding, so no [select] can be answered at all. *)
Lemma step_idle (s s' : Login V) (ev : Event) :
  step_ s ev = Some s' ->
  connectListeners s = O -> authPending s = false -> selectPending s = O ->
  conns s' = conns s
  /\ connectListeners s' = O /\ authPending s' = false /\ selectPending s' = O.
Proof.
  intros Hs Hl Ha Hp.
  destruct ev as [err| | |r|r]; simpl in Hs.
  - injection Hs as <-. unfold onceCallback.
    destruct (isPushed s); simpl; destruct (callback s); simpl; done.
  - by injection Hs as <-.
  - rewrite Hl in Hs. by injection Hs as <-.
  - by rewrite Ha in Hs.
  - by rewrite Hp in Hs.
Qed.

Lemma failed_auth_adds_nothing
  (label_ : string) (hostname port password dbIndex_ : V)
  (conns0 : list (Client V)) (e : string) (evs : list Event) (s : Login V) :
  truthy password = true ->
  run_ (login truthy default_db label_ hostname port password dbIndex_ conns0)
    (AuthReply (Some e) :: evs) = Some s ->
  conns s = conns0 /\ called s = [Some e].
Proof.
  intros Hpw. simpl. rewrite Hpw.
  set (s1 := onceCallback _ _).
  assert (conns s1 = conns0 /\ connectListeners s1 = O
          /\ authPending s1 = false /\ selectPending s1 = O
          /\ callback s1 = false /\ called s1 = [Some e])
    as (Hc & Hl & Ha & Hp & Hcb & Hcalled) by (unfold s1, onceCallback; simpl; done).
  clearbody s1. revert s1 Hc Hl Ha Hp Hcb Hcalled.
  induction evs as [|ev evs IH]; simpl; intros s1 Hc Hl Ha Hp Hcb Hcalled Hr.
  - by injection Hr as <-.
  - destruct (step_ s1 ev) as [s2|] eqn:Hs; [|done].
    destruct (step_idle _ _ _ Hs Hl Ha Hp) as (Hc2 & Hl2 & Ha2 & Hp2).
    destruct (step_spent _ _ _ Hs Hcb) as [Hcb2 Hcalled2].
    apply (IH s2); congruence.
Qed.

(** C5, at a [login] without password whose [select] is refused, after
    which the connection is lost, made again, and the [select] then
    succeeds: [callback] got the error, once -- and yet the client is in
    [redisConnections] afterwards, and was never quit.  The handler of
    ["error"] does quit and disconnect a client that is not pushed; the
    callbacks of [auth] and [select] do not, and [selectDatabase] stays
    registered on ["connect"]. *)
Theorem failed_select_then_reconnect_pushes :
  let conns0 := [Sample.conn "a" 1 6379 0] in
  let after_login :=
    Registry.login Sample.nonzero 0 "cache1" 1 6379 0 3 conns0 in
  let evs :=
    [Connect; SelectReply (Some "ERR DB index is out of range");
     End_; Connect; SelectReply None] in
  Registry.called <$> Registry.run Sample.nonzero id 0 after_login evs
  = Some [Some "ERR DB index is out of range"]
  /\ Registry.conns <$> Registry.run Sample.nonzero id 0 after_login evs
     = Some (conns0 ++ [Registry.Redis_new 0 "cache1" 1 6379 0 3])
  /\ Registry.released <$> Registry.run Sample.nonzero id 0 after_login evs
     = Some O
  /\ Registry.released
     <$> Registry.run Sample.nonzero id 0 after_login [Error "ECONNREFUSED"]
     = Some 1%nat.
Proof. repeat split; vm_compute; reflexivity. Qed.

End Login.

(** ** The statements above at sample inputs *)


(** A reusable token issued at time 0, verified at 5 s in a state where it
    already sits in [usedTokens], and presented in the query string. *)
Lemma reusable_token_always_accepted_witness :
  let token := "m.0.60.c2VjcmV0" in
  let st := Gate.usedTokens_add token Gate.initial in
  let req := Sample.get_with None (Some token) None in
  Jwt.verify Sample.decode token Sample.secret 5000 = inr (Jwt.claims false 0)
  /\ fst (Gate.jwtVerify Sample.decode Sample.secret token 5000 st)
     = Js.Resolved true
  /\ fst (Http.middleware Sample.decode Sample.admin Sample.secret req 5000 st)
     = Http.Next.
Proof.
  intros token st req.
  pose proof (reusable_token_always_accepted Sample.decode Sample.secret
                token 5000 st (Jwt.claims false 0) Sample.admin req
                eq_refl eq_refl) as [(H1 & _ & _) H2].
  split; [reflexivity|]. split; [exact H1|].
  apply H2; [reflexivity | discriminate | reflexivity].
Defined.


(** C2, at the input [far_token], a single-use token that is validly
    signed and expires 10^7 s ahead: its first verification is accepted;
    the eviction delay [(exp + 10) * 1000 - now] of about 10^10 ms does
    not fit a timer, so the timer runs after one millisecond instead of ten
    seconds after the expiry and takes the token out of [usedTokens]; and
    the second verification of the same string, long before the expiry, is
    accepted again. *)
Lemma single_use_token_far_expiry_accepted_twice :
  let w := Gate.boot 0 in
  let w1 := fst (Gate.step Sample.decode Sample.secret w
                   (Gate.Verify Sample.far_token)) in
  let w2 := Gate.run Sample.decode Sample.secret w1
              [Gate.Elapse 1; Gate.Fire 0] in
  (exists p, Jwt.verify Sample.decode Sample.far_token Sample.secret
               (Gate.now w) = inr p
             /\ Jwt.singleUse p = true
             /\ Jwt.exp p = Some 10000000)
  /\ snd (Gate.step Sample.decode Sample.secret w
            (Gate.Verify Sample.far_token)) = Some (Js.Resolved true)
  /\ Jwt.clockTimestamp (Gate.now w2) = 0
  /\ snd (Gate.step Sample.decode Sample.secret w2
            (Gate.Verify Sample.far_token)) = Some (Js.Resolved true).
Proof.
  split; [|split; [|split]].
  - eexists. split; [reflexivity|]. split; reflexivity.
  - vm_compute. reflexivity.
  - reflexivity.
  - vm_compute. reflexivity.
Qed.

(** The bearer token issued at 1 000 000 ms. *)
Lemma bearer_token_round_trip_witness :
  let token := Jwt.sign Sample.encode false Sample.secret 1000000 in
  Sample.decode Sample.secret token = Some (Jwt.claims false 1000000)
  /\ fst (Gate.jwtVerify Sample.decode Sample.secret token 1000000 Gate.initial)
     = Js.Resolved true
  /\ fst (Gate.jwtVerify Sample.decode Sample.secret token 1060000 Gate.initial)
     = Js.Resolved false.
Proof.
  intros token.
  pose proof (bearer_token_round_trip Sample.decode Sample.encode
                Sample.secret 1000000 Gate.initial eq_refl)
    as (_ & H1 & _ & H2 & _).
  split; [reflexivity|]. split; [exact H1|].
  apply H2. lia.
Defined.

(** No username configured. *)
Lemma no_principal_admits_everything_witness :
  Js.truthy (Http.username Sample.open_door) = false
  /\ Http.authenticate Sample.decode (fun _ _ => Js.Resolved false) true Sample.open_door
       Sample.secret (Sample.post_signin "" "") 0 Gate.initial
     = (Js.Resolved true, Gate.initial)
  /\ Http.middleware Sample.decode Sample.open_door Sample.secret
       (Sample.get_with None None None) 0 Gate.initial
     = (Http.Next, Gate.initial).
Proof.
  split; [reflexivity|].
  pose proof (no_principal_admits_everything Sample.decode (fun _ _ => Js.Resolved false)
                Sample.secret true Sample.open_door) as H.
  split.
  - apply (H (Sample.post_signin "" "") 0 Gate.initial). by left.
  - apply (H (Sample.get_with None None None) 0 Gate.initial). by left.
Defined.

(** A request with tokens in the body, the query string and the header, and
    a request with none. *)
Lemma middleware_gate_witness :
  Http.no_principal Sample.admin = false
  /\ Http.extract_token
       (Sample.get_with (Some "b") (Some "q") (Some "Bearer h")) = Some "b"
  /\ Http.extract_token
       (Sample.get_with (Some "") (Some "q") (Some "Bearer h")) = Some "q"
  /\ Http.extract_token
       (Sample.get_with None None (Some "bearer  h")) = Some "h"
  /\ Http.middleware Sample.decode Sample.admin Sample.secret
       (Sample.get_with None None (Some "Basic h")) 0 Gate.initial
     = (Http.End_with 401 "Unauthorized - Missing Token", Gate.initial)
  /\ fst (Http.middleware Sample.decode Sample.admin Sample.secret
            (Sample.get_with None None (Some "Bearer m.0.60.c2VjcmV0")) 0
            Gate.initial)
     = Http.Next.
Proof.
  pose proof (middleware_gate Sample.decode Sample.secret Sample.admin) as G.
  split; [reflexivity|].
  split; [|split; [|split; [|split]]].
  - destruct (G (Sample.get_with (Some "b") (Some "q") (Some "Bearer h"))
                0 Gate.initial eq_refl) as (H & _).
    by apply (H _ eq_refl).
  - destruct (G (Sample.get_with (Some "") (Some "q") (Some "Bearer h"))
                0 Gate.initial eq_refl) as (_ & H & _).
    apply H; [|reflexivity]. by intros b [= <-].
  - destruct (G (Sample.get_with None None (Some "bearer  h"))
                0 Gate.initial eq_refl) as (_ & _ & H & _).
    rewrite H; [reflexivity| |reflexivity]. by intros b [= <-].
  - destruct (G (Sample.get_with None None (Some "Basic h"))
                0 Gate.initial eq_refl) as (_ & _ & _ & H & _).
    by apply H.
  - destruct (G (Sample.get_with None None (Some "Bearer m.0.60.c2VjcmV0"))
                0 Gate.initial eq_refl) as (_ & _ & _ & _ & H).
    destruct (H "m.0.60.c2VjcmV0" eq_refl) as (ok & st' & Hv & _ & ->);
      [discriminate|].
    vm_compute in Hv. by injection Hv as <- _.
Defined.

(** Three open connections, two of them to the same target. *)
Lemma logout_removes_first_match_witness :
  let a := Sample.conn "a" 1 6379 0 in
  let b := Sample.conn "b" 2 6379 0 in
  let b' := Sample.conn "b again" 2 6379 0 in
  Registry.logout Z.eqb 9 6379 0 [a; b; b']
  = ([a; b; b'], [], Some "Could not remove ")
  /\ Registry.logout Z.eqb 2 6379 0 [a; b; b'] = ([a; b'], [b], None).
Proof.
  intros a b b'. split.
  - apply (proj1 (logout_removes_first_match Z Z.eqb 9 6379 0 [a; b; b'])).
    intros c Hc.
    repeat (apply elem_of_cons in Hc as [->|Hc]; [reflexivity|]).
    by apply not_elem_of_nil in Hc.
  - apply (proj2 (logout_removes_first_match Z Z.eqb 2 6379 0 [a; b; b'])
             [a] b [b']); [reflexivity| |reflexivity].
    intros c Hc. apply list_elem_of_singleton in Hc as ->. reflexivity.
Defined.


(** * Further properties of the same code *)

(** ** [equalStrings]: what the double concatenation decides *)

Section EqualStringsMore.

Import Crypto.

Lemma all_from_spec (f : N -> bool) (count : nat) (start k : N) :
  all_from count start f = true ->
  (start <= k < start + N.of_nat count)%N ->
  f k = true.
Proof.
  revert start. induction count as [|count IH]; intros start H Hk; [lia|].
  simpl in H. apply andb_true_iff in H as [H0 H].
  destruct (N.eq_dec k start) as [->|Hne]; [done|].
  apply (IH (N.succ start)); [done|lia].
Qed.

(** Every code point below 10000 is read back from its bytes: checked on
    all of them. *)
Lemma utf8_head_table :
  all_from (N.to_nat 65536) 0
    (fun u => match utf8_head (utf8_code_point u) with
              | Some v => N.eqb v u
              | None => false
              end) = true.
Proof. vm_compute. reflexivity. Qed.

Lemma utf8_head_code_point (u : N) :
  (u < 65536)%N -> utf8_head (utf8_code_point u) = Some u.
Proof.
  intros Hu.
  pose proof (all_from_spec _ _ _ u utf8_head_table) as H.
  rewrite N2Nat.id in H. specialize (H ltac:(lia)).
  destruct (utf8_head (utf8_code_point u)) as [v|]; [|done].
  by apply N.eqb_eq in H as ->.
Qed.

Lemma utf8_head_app (l x : Buffer) (v : N) :
  utf8_head l = Some v -> utf8_head (l ++ x) = Some v.
Proof.
  destruct l as [|b1 [|b2 [|b3 l]]]; simpl; try done;
    repeat (destruct (_ <? _)%N); done.
Qed.

Lemma utf8_code_point_head (u u' : N) (x y : Buffer) :
  (u < 65536)%N -> (u' < 65536)%N ->
  utf8_code_point u ++ x = utf8_code_point u' ++ y -> u = u'.
Proof.
  intros Hu Hu' H.
  pose proof (utf8_head_app _ x _ (utf8_head_code_point u Hu)) as H1.
  pose proof (utf8_head_app _ y _ (utf8_head_code_point u' Hu')) as H2.
  rewrite H in H1. congruence.
Qed.

Lemma utf8_code_point_not_nil (u : N) : utf8_code_point u <> [].
Proof. unfold utf8_code_point. by repeat (destruct (_ <? _)%N). Qed.

Lemma is_scalar_true (u : N) :
  is_scalar u = true ->
  is_high u = false /\ is_low u = false /\ (u < 65536)%N.
Proof.
  unfold is_scalar, is_high, is_low. intros H.
  destruct (N.ltb_spec u 55296); simpl in H.
  - repeat split; [| |lia].
    + destruct (N.leb_spec 55296 u); [lia|done].
    + destruct (N.leb_spec 56320 u); [lia|done].
  - apply andb_true_iff in H as [H1 H2].
    apply N.leb_le in H1. apply N.ltb_lt in H2. repeat split; [| |done].
    + destruct (N.leb_spec u 56319); [lia|]. by rewrite andb_false_r.
    + destruct (N.leb_spec u 57343); [lia|]. by rewrite andb_false_r.
Qed.

Lemma Buffer_from_scalar (u : N) (rest : jstring) :
  is_scalar u = true ->
  Buffer_from (u :: rest) = utf8_code_point u ++ Buffer_from rest.
Proof. intros H. simpl. by destruct (is_scalar_true u H) as (-> & -> & _). Qed.

Lemma Buffer_from_app (a b : jstring) :
  forallb is_scalar a = true ->
  Buffer_from (a ++ b) = Buffer_from a ++ Buffer_from b.
Proof.
  induction a as [|u a IH]; intros H; [done|].
  simpl in H. apply andb_true_iff in H as [Hu H].
  rewrite <- app_comm_cons, !Buffer_from_scalar by done.
  by rewrite IH, app_assoc.
Qed.

(** [Buffer.from] loses nothing on strings without surrogates. *)
Lemma Buffer_from_inj (a b : jstring) :
  forallb is_scalar a = true -> forallb is_scalar b = true ->
  Buffer_from a = Buffer_from b -> a = b.
Proof.
  revert b. induction a as [|u a IH]; intros [|u' b] Ha Hb H; [done| | |].
  - simpl in Hb. apply andb_true_iff in Hb as [Hu' _].
    rewrite Buffer_from_scalar in H by done.
    symmetry in H. apply app_eq_nil in H as [H _].
    by apply utf8_code_point_not_nil in H.
  - simpl in Ha. apply andb_true_iff in Ha as [Hu _].
    rewrite Buffer_from_scalar in H by done.
    apply app_eq_nil in H as [H _]. by apply utf8_code_point_not_nil in H.
  - simpl in Ha, Hb.
    apply andb_true_iff in Ha as [Hu Ha]. apply andb_true_iff in Hb as [Hu' Hb].
    rewrite !Buffer_from_scalar in H by done.
    destruct (is_scalar_true u Hu) as (_ & _ & Hlt).
    destruct (is_scalar_true u' Hu') as (_ & _ & Hlt').
    pose proof (utf8_code_point_head _ _ _ _ Hlt Hlt' H) as ->.
    apply app_inv_head in H. by rewrite (IH b Ha Hb H).
Qed.

Lemma forallb_scalar_app (a b : jstring) :
  forallb is_scalar a = true -> forallb is_scalar b = true ->
  forallb is_scalar (a ++ b) = true.
Proof. intros Ha Hb. by rewrite forallb_app, Ha, Hb. Qed.

Lemma equalStrings_commute (a b : jstring) :
  forallb is_scalar a = true -> forallb is_scalar b = true ->
  equalStrings true a b = Some true <-> a ++ b = b ++ a.
Proof.
  intros Ha Hb. rewrite equalStrings_concat. split.
  - intros [= H]. apply bool_decide_eq_true in H.
    apply Buffer_from_inj; [by apply forallb_scalar_app..|].
    by rewrite !Buffer_from_app.
  - intros H. f_equal. apply bool_decide_eq_true.
    by rewrite <- !Buffer_from_app, H.
Qed.

(** Unpaired surrogates all have the bytes of U+FFFD. *)
Lemma equalStrings_lone_surrogates :
  equalStrings true [55296%N] [55297%N] = Some true
  /\ equalStrings true [55296%N] [65533%N] = Some true
  /\ equalStrings false [55296%N] [55297%N] = Some false.
Proof. repeat split; vm_compute; reflexivity. Qed.

Lemma units_of_string_scalar (s : string) :
  forallb is_scalar (units_of_string s) = true.
Proof.
  induction s as [|c s IH]; [done|].
  change (is_scalar (N_of_ascii c) && forallb is_scalar (units_of_string s)
          = true).
  rewrite IH, andb_true_r.
  unfold is_scalar. pose proof (N_ascii_bounded c).
  destruct (N.ltb_spec (N_of_ascii c) 55296); [done|lia].
Qed.

Lemma units_of_string_app (a b : string) :
  units_of_string (a +:+ b) = units_of_string a ++ units_of_string b.
Proof.
  induction a as [|c a IH]; [done|].
  change (N_of_ascii c :: units_of_string (a +:+ b)
          = N_of_ascii c :: (units_of_string a ++ units_of_string b)).
  by rewrite IH.
Qed.

Lemma append_same_length (a b x y : string) :
  String.length a = String.length b -> a +:+ x = b +:+ y -> a = b.
Proof.
  revert b. induction a as [|c a IH]; intros [|c' b]; simpl; try done.
  intros [= Hl] [= -> H]. by rewrite (IH b Hl H).
Qed.

(** X1: [equalStrings] never throws: whatever the two strings and their
    lengths are, the two buffers handed to [crypto.timingSafeEqual] have
    the same length, so the RangeError of the primitive cannot occur. *)
Theorem equalStrings_never_throws (hasTimingSafeEqual : bool) (a b : jstring) :
  equalStrings hasTimingSafeEqual a b <> None
  /\ length (Buffer_concat [Buffer_from a; Buffer_from b])
     = length (Buffer_concat [Buffer_from b; Buffer_from a]).
Proof.
  split.
  - destruct (equalStrings_total hasTimingSafeEqual a b) as [r ->]. done.
  - unfold Buffer_concat. simpl. rewrite !app_nil_r, !length_app. lia.
Qed.

(** X2: with [crypto.timingSafeEqual], on two strings without surrogate
    code units [equalStrings(a, b)] is [true] exactly when the strings
    [a + b] and [b + a] are the same.  On all strings it is [true] for
    equal arguments and symmetric. *)
Theorem equalStrings_commuting_strings (a b : jstring) :
  (forallb is_scalar a = true -> forallb is_scalar b = true ->
   (equalStrings true a b = Some true <-> a ++ b = b ++ a))
  /\ equalStrings true a a = Some true
  /\ equalStrings true a b = equalStrings true b a.
Proof.
  split; [|split].
  - apply equalStrings_commute.
  - apply equalStrings_refl.
  - rewrite !equalStrings_concat. f_equal.
    apply bool_decide_ext. split; intros H; by symmetry.
Qed.

(** X3: on two strings of the same length and without surrogate code
    units [equalStrings] is exact: the answer is [true] if and only if the
    strings are equal, with or without [crypto.timingSafeEqual]. *)
Theorem equalStrings_exact_on_equal_length
  (hasTimingSafeEqual : bool) (a b : jstring) :
  forallb is_scalar a = true -> forallb is_scalar b = true ->
  length a = length b ->
  equalStrings hasTimingSafeEqual a b = Some true <-> a = b.
Proof.
  intros Ha Hb Hl. destruct hasTimingSafeEqual.
  - split.
    + intros H. apply equalStrings_commute in H; [|done..].
      by apply app_inj_1 in H as [H _].
    + intros ->. apply equalStrings_refl.
  - unfold equalStrings. cbn [negb]. split.
    + intros [= H]. by apply bool_decide_eq_true in H.
    + intros ->. by rewrite bool_decide_eq_true_2.
Qed.

(** X18: which passwords [/signin] lets through when a plaintext password
    is configured and [crypto.timingSafeEqual] exists, for usernames and
    passwords made of code units below 256.  A posted pair passes exactly
    when the username is the configured one and the posted password [p]
    and the configured password [c] satisfy [p + c = c + p]; for a posted
    password of the same length as the configured one that means it is the
    configured one. *)
Theorem plaintext_password_check
  (decode : Jwt.decoder) (bcrypt_compare : string -> string -> Js.settled bool)
  (jwtSecret : string) (o : Http.ServerOptions) (req : Http.Request) (t : Z)
  (st : Gate.State) (user pass : string) (token : Js.value) :
  Http.no_principal o = false ->
  Js.truthy (Http.passwordHash o) = false ->
  Http.body req = Some {| Http.b_username := Some user;
                          Http.b_password := Some pass;
                          Http.b_redisCommanderQueryToken := token |} ->
  user <> "" \/ pass <> "" ->
  (fst (Http.authenticate decode bcrypt_compare true o jwtSecret req t st)
   = Js.Resolved true
   <-> user = Js.String_ (Http.username o)
       /\ pass +:+ Js.String_ (Http.password o)
          = Js.String_ (Http.password o) +:+ pass)
  /\ (String.length pass = String.length (Js.String_ (Http.password o)) ->
      (fst (Http.authenticate decode bcrypt_compare true o jwtSecret req t st)
       = Js.Resolved true
       <-> user = Js.String_ (Http.username o)
           /\ pass = Js.String_ (Http.password o))).
Proof.
  intros Hp Hh Hb Hc.
  assert (Js.truthy (Some user) || Js.truthy (Some pass) = true) as Hcred.
  { simpl. destruct Hc as [Hc|Hc];
      [destruct (String.eqb_spec user "")|destruct (String.eqb_spec pass "")];
      try done; simpl; by rewrite ?orb_true_r. }
  destruct (authenticate_plaintext decode bcrypt_compare jwtSecret true o req
              t st (Some user) (Some pass) token Hp Hh Hb Hcred)
    as (validPass & Heq & ->).
  simpl in Heq.
  assert (equalStrings true pass (Js.String_ (Http.password o)) = Some true
          <-> pass +:+ Js.String_ (Http.password o)
              = Js.String_ (Http.password o) +:+ pass) as Hcomm.
  { rewrite equalStrings_commute by apply units_of_string_scalar.
    rewrite <- !units_of_string_app. split.
    - apply units_of_string_inj.
    - by intros ->. }
  assert (Js.Resolved
            (String.eqb (Js.String_ (Some user)) (Js.String_ (Http.username o))
             && validPass) = Js.Resolved true
          <-> user = Js.String_ (Http.username o)
              /\ pass +:+ Js.String_ (Http.password o)
                 = Js.String_ (Http.password o) +:+ pass) as Hiff.
  { rewrite <- Hcomm, Heq. simpl. split.
    - intros [= H]. apply andb_true_iff in H as [H1 ->].
      by apply String.eqb_eq in H1.
    - intros [-> [= ->]]. by rewrite String.eqb_refl. }
  split; [exact Hiff|].
  intros Hl. rewrite Hiff. split.
  - intros [Hu Hcomm']. split; [done|].
    by apply (append_same_length _ _ _ _ Hl Hcomm').
  - by intros [-> ->].
Qed.

End EqualStringsMore.

(** ** [jwtVerify]: its footprint on [usedTokens] and the timers *)

Section SpentTokens.

Import Gate.

Variable decode : Jwt.decoder.
Variable jwtSecret : string.

Local Abbreviation step_ := (step decode jwtSecret).
Local Abbreviation run_ := (run decode jwtSecret).

(** X4: a call of [jwtVerify] never takes a token out of [usedTokens] and
    never cancels a timer; the only token it can add, and the only token it
    can set a timer for, is the one it was called with; and a call that
    resolves to [false] leaves both exactly as they were. *)
Theorem jwtVerify_footprint (token : string) (t : Z) (st : State) :
  usedTokens st ⊆ usedTokens (snd (jwtVerify decode jwtSecret token t st))
  /\ usedTokens (snd (jwtVerify decode jwtSecret token t st))
     ⊆ {[ token ]} ∪ usedTokens st
  /\ (exists new, timers (snd (jwtVerify decode jwtSecret token t st))
                  = timers st ++ new
                  /\ (length new <= 1)%nat
                  /\ forall d tk, (d, tk) ∈ new -> tk = token)
  /\ (fst (jwtVerify decode jwtSecret token t st) = Js.Resolved false ->
      usedTokens (snd (jwtVerify decode jwtSecret token t st)) = usedTokens st
      /\ timers (snd (jwtVerify decode jwtSecret token t st)) = timers st).
Proof.
  assert (forall X : gset string, X ⊆ {[ token ]} ∪ X) as Hsub.
  { intros X x Hx. apply elem_of_union. by right. }
  assert (exists new : list (Z * string),
            timers st = timers st ++ new /\ (length new <= 1)%nat
            /\ forall d tk, (d, tk) ∈ new -> tk = token) as Hnil.
  { exists []. rewrite app_nil_r. split; [done|]. split; [simpl; lia|].
    intros d tk H. by apply not_elem_of_nil in H. }
  unfold jwtVerify.
  destruct (Jwt.verify decode token jwtSecret t) as [err|p]; simpl; [done|].
  destruct (Jwt.singleUse p); simpl; [|done].
  case_bool_decide; simpl; [done|].
  destruct (Jwt.exp p) as [e|]; [destruct (e =? 0)|]; simpl;
    try (split; [auto|split; [done|split; [done|done]]]).
  split; [auto|]. split; [done|]. split; [|done].
  eexists. split; [reflexivity|]. split; [simpl; lia|].
  intros d tk Hd. apply list_elem_of_singleton in Hd. congruence.
Qed.

(** The bookkeeping invariant of the event loop. *)
Lemma step_bookkeeping (w : World) (ev : Event) :
  (forall d tk, (d, tk) ∈ timers (gate w) -> tk ∈ usedTokens (gate w)) ->
  NoDup (timers (gate w)).*2 ->
  (forall d tk, (d, tk) ∈ timers (gate (fst (step_ w ev))) ->
     tk ∈ usedTokens (gate (fst (step_ w ev))))
  /\ NoDup (timers (gate (fst (step_ w ev)))).*2.
Proof.
  intros Hin Hnd. destruct ev as [token|ms|i]; simpl; [| done |].
  - unfold jwtVerify.
    destruct (Jwt.verify decode token jwtSecret (now w)) as [err|p]; simpl;
      [done|].
    destruct (Jwt.singleUse p); simpl; [|done].
    case_bool_decide as Hused; simpl; [done|]. simpl in Hused.
    assert (forall d tk, (d, tk) ∈ timers (gate w) ->
              tk ∈ ({[ token ]} ∪ usedTokens (gate w) : gset string)) as Hin'.
    { intros d tk H. apply elem_of_union. right. by eapply Hin. }
    destruct (Jwt.exp p) as [e|]; [destruct (e =? 0)|]; simpl; [done| |done].
    split.
    + intros d tk H. apply elem_of_app in H as [H|H]; [by eapply Hin'|].
      apply list_elem_of_singleton in H. injection H as _ ->.
      apply elem_of_union. left. by apply elem_of_singleton.
    + rewrite fmap_app. apply NoDup_app. split; [done|]. split.
      * intros tk Htk Htk'. apply list_elem_of_singleton in Htk'. simpl in Htk'.
        subst tk. apply list_elem_of_fmap in Htk as ([d tk] & -> & Htk).
        apply Hused. by eapply Hin.
      * apply NoDup_singleton.
  - unfold fire.
    destruct (timers (gate w) !! i) as [[due token]|] eqn:Hi; [|done].
    destruct (due <=? now w); [|done]. simpl.
    assert (timers (gate w)
            = take i (timers (gate w)) ++ (due, token) :: drop (S i) (timers (gate w)))
      as Hsplit by (by rewrite take_drop_middle).
    rewrite Hsplit, fmap_app, fmap_cons in Hnd. simpl in Hnd.
    apply NoDup_app in Hnd as (Hnd1 & Hnd2 & Hnd3).
    apply NoDup_cons in Hnd3 as [Hnd3 Hnd4].
    split.
    + intros d tk H. apply elem_of_difference. split.
      * apply (Hin d). by eapply elem_of_without.
      * rewrite elem_of_singleton. intros ->.
        apply elem_of_app in H as [H|H].
        -- apply (Hnd2 token); [|by left].
           apply list_elem_of_fmap. by exists (d, token).
        -- apply Hnd3. apply list_elem_of_fmap. by exists (d, token).
    + rewrite fmap_app. apply NoDup_app. split; [done|]. split; [|done].
      intros tk H1 H2. apply (Hnd2 tk H1). by right.
Qed.

Lemma run_bookkeeping (evs : list Event) (w : World) :
  (forall d tk, (d, tk) ∈ timers (gate w) -> tk ∈ usedTokens (gate w)) ->
  NoDup (timers (gate w)).*2 ->
  (forall d tk, (d, tk) ∈ timers (gate (run_ w evs)) ->
     tk ∈ usedTokens (gate (run_ w evs)))
  /\ NoDup (timers (gate (run_ w evs))).*2.
Proof.
  revert w. induction evs as [|ev evs IH]; intros w Hin Hnd; simpl; [done|].
  destruct (step_bookkeeping w ev Hin Hnd) as [Hin' Hnd'].
  by apply IH.
Qed.

(** X5: at every moment of every run from process start, each pending
    eviction timer belongs to a token that is in [usedTokens], and no token
    has two timers; so there are never more timers than spent tokens. *)
Theorem timers_track_spent_tokens (t0 : Z) (evs : list Event) :
  (forall d tk, (d, tk) ∈ timers (gate (run_ (boot t0) evs)) ->
     tk ∈ usedTokens (gate (run_ (boot t0) evs)))
  /\ NoDup (timers (gate (run_ (boot t0) evs))).*2
  /\ (length (timers (gate (run_ (boot t0) evs)))
      <= size (usedTokens (gate (run_ (boot t0) evs))))%nat.
Proof.
  destruct (run_bookkeeping evs (boot t0)) as [Hin Hnd].
  { intros d tk H. by apply not_elem_of_nil in H. }
  { apply NoDup_nil_2. }
  split; [done|]. split; [done|].
  rewrite <- (length_fmap snd).
  rewrite <- (size_list_to_set (C := gset string)) by done.
  apply subseteq_size. intros tk Htk.
  apply elem_of_list_to_set, list_elem_of_fmap in Htk as ([d tk'] & -> & Htk).
  by eapply Hin.
Qed.

(** X6: eviction is complete.  When, in a run from process start, a timer
    that is due runs, its token is afterwards neither in [usedTokens] nor
    the subject of any timer; a timer that is not yet due changes
    nothing. *)
Theorem due_timer_evicts_token
  (t0 : Z) (evs : list Event) (i : nat) (due : Z) (token : string) :
  timers (gate (run_ (boot t0) evs)) !! i = Some (due, token) ->
  (due <= now (run_ (boot t0) evs) ->
   (token ∉ usedTokens (gate (fire i (run_ (boot t0) evs))))
   /\ (forall d, (d, token) ∉ timers (gate (fire i (run_ (boot t0) evs)))))
  /\ (now (run_ (boot t0) evs) < due ->
      fire i (run_ (boot t0) evs) = run_ (boot t0) evs).
Proof.
  intros Hi.
  destruct (run_bookkeeping evs (boot t0)) as [_ Hnd].
  { intros d tk H. by apply not_elem_of_nil in H. }
  { apply NoDup_nil_2. }
  set (w := run_ (boot t0) evs) in *.
  unfold fire. rewrite Hi. split.
  - intros Hdue. destruct (Z.leb_spec due (now w)); [|lia]. simpl. split.
    + rewrite elem_of_difference, elem_of_singleton. tauto.
    + intros d Hd.
      rewrite <- (take_drop_middle _ _ _ Hi), fmap_app, fmap_cons in Hnd.
      simpl in Hnd.
      apply NoDup_app in Hnd as (_ & Hnd2 & Hnd3).
      apply NoDup_cons in Hnd3 as [Hnd3 _].
      apply elem_of_app in Hd as [Hd|Hd].
      * apply (Hnd2 token); [|by left].
        apply list_elem_of_fmap. by exists (d, token).
      * apply Hnd3. apply list_elem_of_fmap. by exists (d, token).
  - intros Hlt. by destruct (Z.leb_spec due (now w)); [lia|].
Qed.

End SpentTokens.

(** ** Sessions: lifetime, renewal, and the gate as a whole *)

Section SessionsMore.

Import Gate Http.

Variable decode : Jwt.decoder.
Variable encode : Jwt.encoder.
Variable bcrypt_compare : string -> string -> Js.settled bool.
Variable jwtSecret : string.

Lemma verify_claims_expired (single : bool) (token : string) (t t' : Z) :
  decode jwtSecret token = Some (Jwt.claims single t) ->
  Jwt.clockTimestamp t + 60 <= Jwt.clockTimestamp t' ->
  exists err, Jwt.verify decode token jwtSecret t' = inl err.
Proof.
  intros Hd Hle.
  apply (verify_expired decode jwtSecret token t' (Jwt.claims single t)
           (Jwt.clockTimestamp t + 60)); done.
Qed.

(** X7: the bearer token signed at [t] is accepted exactly at the moments
    whose clock second is less than sixty after the clock second of [t],
    in whatever state and however often; hence it is good for at least
    59 s and for less than 60 s plus the part of a second at which it was
    signed. *)
Theorem bearer_token_lifetime (t t' : Z) (st : State) :
  decode jwtSecret (Jwt.sign encode false jwtSecret t)
  = Some (Jwt.claims false t) ->
  (fst (jwtVerify decode jwtSecret (Jwt.sign encode false jwtSecret t) t' st)
   = Js.Resolved true
   <-> Jwt.clockTimestamp t' < Jwt.clockTimestamp t + 60)
  /\ (t <= t' <= t + 59000 ->
      fst (jwtVerify decode jwtSecret (Jwt.sign encode false jwtSecret t) t' st)
      = Js.Resolved true)
  /\ (t - t mod 1000 + 60000 <= t' ->
      fst (jwtVerify decode jwtSecret (Jwt.sign encode false jwtSecret t) t' st)
      = Js.Resolved false).
Proof.
  intros Hd.
  assert (Jwt.clockTimestamp t' < Jwt.clockTimestamp t + 60 ->
          fst (jwtVerify decode jwtSecret (Jwt.sign encode false jwtSecret t) t' st)
          = Js.Resolved true) as Hin.
  { intros Hlt.
    rewrite (jwtVerify_reusable _ _ _ _ _ (Jwt.claims false t)); [done| |done].
    by apply verify_claims. }
  assert (Jwt.clockTimestamp t + 60 <= Jwt.clockTimestamp t' ->
          fst (jwtVerify decode jwtSecret (Jwt.sign encode false jwtSecret t) t' st)
          = Js.Resolved false) as Hout.
  { intros Hle.
    destruct (verify_claims_expired false _ t t' Hd Hle) as [err Herr].
    by rewrite (jwtVerify_error _ _ _ _ _ _ Herr). }
  split; [split|split].
  - intros H.
    destruct (Z.lt_ge_cases (Jwt.clockTimestamp t') (Jwt.clockTimestamp t + 60))
      as [Hlt|Hge]; [done|].
    rewrite (Hout Hge) in H. discriminate.
  - done.
  - intros [H1 H2]. apply Hin. unfold Jwt.clockTimestamp.
    assert (t' / 1000 <= (t + 59 * 1000) / 1000) as Hdiv
      by (apply Z.div_le_mono; lia).
    rewrite Z.div_add in Hdiv by lia. lia.
  - intros H. apply Hout. unfold Jwt.clockTimestamp.
    assert ((t - t mod 1000 + 60000) / 1000 <= t' / 1000) as Hdiv
      by (apply Z.div_le_mono; lia).
    replace (t - t mod 1000 + 60000) with ((t / 1000 + 60) * 1000) in Hdiv
      by (pose proof (Z.div_mod t 1000); lia).
    rewrite Z.div_mul in Hdiv by lia. done.
Qed.

Lemma append_empty (s : string) : s +:+ "" = s.
Proof. induction s as [|c s IH]; [done|]. change (String c (s +:+ "") = String c s). by f_equal. Qed.

Lemma append_unit (s r : string) (c : ascii) :
  (s +:+ String c "") +:+ r = s +:+ String c r.
Proof.
  induction s as [|c' s IH]; [done|].
  change (String c' ((s +:+ String c "") +:+ r) = String c' (s +:+ String c r)).
  by f_equal.
Qed.

(** A word without white space is one piece for [split]. *)
Lemma split_from_word (s cur : string) (in_sep : bool) :
  Forall (fun c => is_space c = false) (list_ascii_of_string s) ->
  split_from s cur in_sep = [cur +:+ s].
Proof.
  revert cur in_sep. induction s as [|c s IH]; intros cur in_sep H; simpl.
  - by rewrite append_empty.
  - simpl in H. apply Forall_cons in H as [Hc H].
    by rewrite Hc, (IH _ _ H), append_unit.
Qed.

Lemma authorization_bearer (token : string) :
  Forall (fun c => is_space c = false) (list_ascii_of_string token) ->
  split_space (Js.or_else (Some ("Bearer " +:+ token)) "")
  = ["Bearer"; token].
Proof.
  intros H. unfold split_space. simpl. f_equal. by rewrite split_from_word.
Qed.

Lemma jwtVerify_settles (token : string) (t : Z) (st : State) :
  exists ok st',
    jwtVerify decode jwtSecret token t st = (Js.Resolved ok, st')
    /\ (ok = true -> exists p, Jwt.verify decode token jwtSecret t = inr p).
Proof.
  unfold jwtVerify. destruct (Jwt.verify decode token jwtSecret t) as [err|p].
  - exists false. eexists. split; [reflexivity|done].
  - destruct (Jwt.singleUse p).
    + case_bool_decide; eexists; eexists; (split; [reflexivity|eauto]).
    + eexists; eexists; (split; [reflexivity|eauto]).
Qed.

(** The middleware once it has a token. *)
Lemma middleware_with_token
  (o : ServerOptions) (req : Request) (t : Z) (st : State) (token : string) :
  no_principal o = false ->
  extract_token req = Some token ->
  token <> "" ->
  middleware decode o jwtSecret req t st
  = (match fst (jwtVerify decode jwtSecret token t st) with
     | Js.Resolved true => Next
     | Js.Resolved false =>
         End_with 401 "Unauthorized - Token Invalid or Expired"
     | Js.Rejected why => Unhandled why
     end,
     snd (jwtVerify decode jwtSecret token t st)).
Proof.
  intros Hp Hx Hne. unfold middleware. rewrite Hp, Hx. simpl.
  destruct (String.eqb_spec token ""); [done|]. simpl.
  destruct (jwtVerify decode jwtSecret token t st) as [[[]|] st']; done.
Qed.

(** X8: sessions can be renewed.  A [POST /signin] without username and
    password whose [Authorization] header is [Bearer] followed by a bearer
    token that was signed less than sixty clock seconds ago is answered
    with [ok: true] and two tokens signed at the time of the request. *)
Theorem signin_with_bearer_renews
  (hasTimingSafeEqual : bool) (o : ServerOptions) (req : Request)
  (t t' : Z) (st : State) :
  no_principal o = false ->
  method req = "POST" ->
  path req = "/" ->
  has_credentials req = false ->
  h_Authorization req
  = Some ("Bearer " +:+ Jwt.sign encode false jwtSecret t) ->
  Forall (fun c => is_space c = false)
    (list_ascii_of_string (Jwt.sign encode false jwtSecret t)) ->
  decode jwtSecret (Jwt.sign encode false jwtSecret t)
  = Some (Jwt.claims false t) ->
  Jwt.clockTimestamp t' < Jwt.clockTimestamp t + 60 ->
  fst (signin decode encode bcrypt_compare hasTimingSafeEqual o jwtSecret
         req t' st)
  = Json_ok (Jwt.sign encode false jwtSecret t')
            (Jwt.sign encode true jwtSecret t').
Proof.
  intros Hp Hm Hpath Hc Hh Hw Hd Hlt.
  unfold signin, authenticate. rewrite Hm, Hpath, Hp, Hc, Hh. simpl negb.
  cbn [orb]. rewrite (authorization_bearer _ Hw).
  change (item ["Bearer"; Jwt.sign encode false jwtSecret t] 0)
    with (Some "Bearer").
  change (item ["Bearer"; Jwt.sign encode false jwtSecret t] 1)
    with (Some (Jwt.sign encode false jwtSecret t)).
  change (is_Bearer (Js.String_ (Some "Bearer"))) with true. cbv iota.
  assert (Js.or_else (Some (Jwt.sign encode false jwtSecret t)) ""
          = Jwt.sign encode false jwtSecret t) as ->.
  { unfold Js.or_else.
    by destruct (String.eqb_spec (Jwt.sign encode false jwtSecret t) "") as [->|]. }
  rewrite (jwtVerify_reusable _ _ _ _ _ (Jwt.claims false t)); [done| |done].
  by apply verify_claims.
Qed.

(** X9: with a password hash configured, a posted username/password pair
    passes the credential check exactly when the username is the
    configured one and [bcrypt.compare] of the posted password with the
    hash resolves to [true]; a plaintext password that is configured as
    well plays no part, and neither does an [Authorization] header. *)
Theorem authenticate_with_hash
  (hasTimingSafeEqual : bool) (o : ServerOptions) (req : Request) (t : Z)
  (st : State) (user pass : string) (token : Js.value) :
  Js.truthy (username o) = true ->
  Js.truthy (passwordHash o) = true ->
  body req = Some {| b_username := Some user; b_password := Some pass;
                     b_redisCommanderQueryToken := token |} ->
  user <> "" \/ pass <> "" ->
  (fst (authenticate decode bcrypt_compare hasTimingSafeEqual o jwtSecret req t st)
   = Js.Resolved true
   <-> user = Js.String_ (username o)
       /\ bcrypt_compare pass (Js.String_ (passwordHash o)) = Js.Resolved true)
  /\ Gate.usedTokens
       (snd (authenticate decode bcrypt_compare hasTimingSafeEqual o jwtSecret
               req t st)) = Gate.usedTokens st
  /\ Gate.verifyCalls
       (snd (authenticate decode bcrypt_compare hasTimingSafeEqual o jwtSecret
               req t st)) = Gate.verifyCalls st.
Proof.
  intros Hu Hh Hb Hc.
  assert (has_credentials req = true) as Hcred.
  { unfold has_credentials. rewrite Hb. simpl.
    destruct Hc as [Hc|Hc];
      [destruct (String.eqb_spec user "")|destruct (String.eqb_spec pass "")];
      try done; simpl; by rewrite ?orb_true_r. }
  unfold authenticate, no_principal. rewrite Hu, Hh, Hcred, Hb. simpl.
  split; [|done].
  destruct (String.eqb_spec user (Js.String_ (username o))) as [->|Hne].
  - split; [by intros H|by intros [_ H]].
  - split; [discriminate|by intros [H _]].
Qed.

(** X10: the middleware fails closed.  With a principal configured it
    answers in one of three ways -- [next()], 401 for a missing token, 401
    for an invalid one -- and it calls [next()] only for a request that
    carries a non-empty token which [jwt.verify] accepts at that moment
    with the configured secret, issuer and subject. *)
Theorem middleware_fails_closed
  (o : ServerOptions) (req : Request) (t : Z) (st : State) :
  no_principal o = false ->
  (fst (middleware decode o jwtSecret req t st) = Next
   \/ fst (middleware decode o jwtSecret req t st)
      = End_with 401 "Unauthorized - Missing Token"
   \/ fst (middleware decode o jwtSecret req t st)
      = End_with 401 "Unauthorized - Token Invalid or Expired")
  /\ (fst (middleware decode o jwtSecret req t st) = Next ->
      exists token p,
        extract_token req = Some token /\ token <> ""
        /\ Jwt.verify decode token jwtSecret t = inr p
        /\ Jwt.iss p = Some Jwt.issuer /\ Jwt.sub p = Some Jwt.subject
        /\ (forall e, Jwt.exp p = Some e -> Jwt.clockTimestamp t < e)).
Proof.
  intros Hp.
  destruct (Js.truthy (extract_token req)) eqn:Htr.
  - destruct (extract_token req) as [token|] eqn:Hx; [|done].
    assert (token <> "") as Hne.
    { intros ->. done. }
    rewrite (middleware_with_token o req t st token Hp Hx Hne). simpl.
    destruct (jwtVerify_settles token t st) as (ok & st' & Hv & Hok).
    rewrite Hv. simpl. destruct ok; split; auto; try done.
    intros _. exists token.
    destruct (Hok eq_refl) as [p Hver].
    exists p. split; [done|]. split; [done|]. split; [done|].
    destruct (verify_inr decode jwtSecret token t p Hver) as [Hd Hexp].
    revert Hver. unfold Jwt.verify. rewrite Hd.
    destruct (match Jwt.nbf p with Some n => _ | None => false end); [done|].
    destruct (match Jwt.exp p with Some e => _ | None => false end); [done|].
    case_bool_decide as Hi; [|done]. case_bool_decide as Hs; [|done].
    done.
  - unfold middleware. rewrite Hp, Htr. simpl. split; [auto|done].
Qed.

(** X11: a link that carries the query token of [issueSession] opens once.
    Let the token be signed at [t] and presented for the first time less
    than sixty clock seconds later, in any of the three places: the
    middleware calls [next()].  Whatever happens then, the middleware
    answers every later request that presents the same token with 401. *)
Theorem query_token_opens_once
  (o : ServerOptions) (first again : Request) (t t0 : Z)
  (before : list Event) (w : World) :
  no_principal o = false ->
  decode jwtSecret (Jwt.sign encode true jwtSecret t)
  = Some (Jwt.claims true t) ->
  Jwt.sign encode true jwtSecret t <> "" ->
  w = run decode jwtSecret (boot t0) before ->
  Verify (Jwt.sign encode true jwtSecret t) ∉ before ->
  t <= now w ->
  Jwt.clockTimestamp (now w) < Jwt.clockTimestamp t + 60 ->
  extract_token first = Some (Jwt.sign encode true jwtSecret t) ->
  extract_token again = Some (Jwt.sign encode true jwtSecret t) ->
  fst (middleware decode o jwtSecret first (now w) (gate w)) = Next
  /\ (forall later : list Event,
        let w' :=
          run decode jwtSecret
            {| now := now w;
               gate := snd (middleware decode o jwtSecret first (now w) (gate w)) |}
            later in
        fst (middleware decode o jwtSecret again (now w') (gate w'))
        = End_with 401 "Unauthorized - Token Invalid or Expired").
Proof.
  intros Hp Hd Hne Hw Hno Hle Hlt Hfirst Hagain.
  destruct (query_token_accepted_once decode encode jwtSecret t t0 before w
              Hd Hw Hno Hle Hlt) as [H1 H2].
  rewrite (middleware_with_token o first _ _ _ Hp Hfirst Hne).
  simpl in H1.
  destruct (jwtVerify decode jwtSecret (Jwt.sign encode true jwtSecret t)
              (now w) (gate w)) as [r st'] eqn:Hv.
  simpl in H1. injection H1 as ->. simpl. split; [done|].
  intros later.
  rewrite (middleware_with_token o again _ _ _ Hp Hagain Hne).
  specialize (H2 later). simpl in H2. rewrite Hv in H2. simpl in H2.
  destruct (jwtVerify decode jwtSecret (Jwt.sign encode true jwtSecret t)
              (now (run decode jwtSecret {| now := now w; gate := st' |} later))
              (gate (run decode jwtSecret {| now := now w; gate := st' |} later)))
    as [r2 st2].
  simpl in H2. injection H2 as ->. done.
Qed.

End SessionsMore.

(** ** The registry: what [logout] and [login] do to the array in general *)

Section RegistryMore.

Import Registry.

Variable V : Type.
Variable loose_eq : V -> V -> bool.
Variable truthy : V -> bool.
Variable parseInt : V -> V.
Variable zero : V.
Variable default_db : V.

Local Abbreviation step_ := (step truthy parseInt zero).
Local Abbreviation run_ := (run truthy parseInt zero).
Local Abbreviation login_ := (login truthy default_db).

Lemma logout_no_match (hostname port db : V) (conns : list (Client V)) :
  (forall c, c ∈ conns -> same_target loose_eq hostname port db c = false) ->
  logout loose_eq hostname port db conns = (conns, [], Some "Could not remove ").
Proof.
  intros Hnone. unfold logout. rewrite forEach_passes; [done|].
  intros i c _ Hc. apply Hnone. by eapply list_elem_of_lookup_2.
Qed.

Lemma logout_first (hostname port db : V) (pre post : list (Client V))
  (c : Client V) :
  (forall x, x ∈ pre -> same_target loose_eq hostname port db x = false) ->
  same_target loose_eq hostname port db c = true ->
  logout loose_eq hostname port db (pre ++ c :: post) = (pre ++ post, [c], None).
Proof.
  intros Hpre Hc. unfold logout.
  rewrite length_app. simpl length.
  rewrite forEach_split. simpl (0 + _)%nat.
  rewrite (forEach_passes _ _ _ _ _ (length pre) 0).
  2:{ intros i x [_ Hi] Hx. cbn [redisConnections] in Hx.
      rewrite lookup_app_l in Hx by done.
      apply Hpre. by eapply list_elem_of_lookup_2. }
  cbn [forEach_from redisConnections notRemoved quits].
  rewrite list_lookup_middle by done.
  rewrite Hc, splice1_middle. cbn [andb take app].
  by rewrite forEach_removed.
Qed.

Lemma first_match_split (f : Client V -> bool) (conns : list (Client V)) :
  (exists c, c ∈ conns /\ f c = true) ->
  exists pre c post,
    conns = pre ++ c :: post /\ (forall x, x ∈ pre -> f x = false) /\ f c = true.
Proof.
  induction conns as [|a conns IH]; intros (c & Hin & Hc).
  - by apply not_elem_of_nil in Hin.
  - destruct (f a) eqn:Ha.
    + exists [], a, conns. split; [done|]. split; [|done].
      intros x Hx. by apply not_elem_of_nil in Hx.
    + apply elem_of_cons in Hin as [->|Hin]; [congruence|].
      destruct IH as (pre & c' & post & -> & Hpre & Hc'); [eauto|].
      exists (a :: pre), c', post. split; [done|]. split; [|done].
      intros x Hx. apply elem_of_cons in Hx as [->|Hx]; auto.
Qed.

(** X12: [logout] on any array.  It calls back without error exactly when
    some open client has the given host, port and db; the clients it quits
    and the clients it leaves in the array are together the clients that
    were there; it quits at most one client, and only a matching one; the
    clients that stay keep their order; and when it reports the error the
    array is untouched. *)
Theorem logout_outcome (hostname port db : V) (conns : list (Client V)) :
  ((logout loose_eq hostname port db conns).2 = None
   <-> exists c, c ∈ conns /\ same_target loose_eq hostname port db c = true)
  /\ (logout loose_eq hostname port db conns).1.1
     ++ (logout loose_eq hostname port db conns).1.2 ≡ₚ conns
  /\ (length (logout loose_eq hostname port db conns).1.2 <= 1)%nat
  /\ (forall q, q ∈ (logout loose_eq hostname port db conns).1.2 ->
        same_target loose_eq hostname port db q = true)
  /\ (logout loose_eq hostname port db conns).1.1 `sublist_of` conns
  /\ ((logout loose_eq hostname port db conns).2 <> None ->
      (logout loose_eq hostname port db conns).1.1 = conns).
Proof.
  destruct (existsb (same_target loose_eq hostname port db) conns) eqn:Hex.
  - apply existsb_exists in Hex as (c & Hin & Hc).
    apply list_elem_of_In in Hin.
    destruct (first_match_split (same_target loose_eq hostname port db) conns)
      as (pre & c' & post & -> & Hpre & Hc'); [eauto|].
    rewrite (logout_first _ _ _ _ _ _ Hpre Hc'). simpl.
    split; [split; eauto|]. split.
    { rewrite <- app_assoc. apply Permutation_app_head.
      symmetry. apply Permutation_cons_append. }
    split; [lia|]. split.
    { intros q Hq. by apply list_elem_of_singleton in Hq as ->. }
    split; [|done].
    apply sublist_app; [done|]. by apply sublist_cons.
  - assert (forall c, c ∈ conns ->
              same_target loose_eq hostname port db c = false) as Hnone.
    { intros c Hin. apply list_elem_of_In in Hin.
      destruct (same_target loose_eq hostname port db c) eqn:Hc; [|done].
      assert (existsb (same_target loose_eq hostname port db) conns = true)
        by (apply existsb_exists; eauto).
      congruence. }
    rewrite (logout_no_match _ _ _ _ Hnone). simpl.
    split.
    { split; [done|]. intros (c & Hin & Hc). rewrite (Hnone c Hin) in Hc. done. }
    split; [by rewrite app_nil_r|]. split; [lia|]. split.
    { intros q Hq. by apply not_elem_of_nil in Hq. }
    done.
Qed.

(** A step pushes the client when a [select] succeeds and does nothing to
    the array otherwise. *)
Lemma step_array (s s' : Login V) (ev : Event) :
  step_ s ev = Some s' ->
  client s' = client s
  /\ conns s' = conns s ++ (if completes ev then [client s] else []).
Proof.
  destruct ev as [err| | |[e|]|[e|]]; simpl; intros Hs.
  - injection Hs as <-. unfold onceCallback.
    destruct (isPushed s); simpl; destruct (callback s); simpl;
      by rewrite app_nil_r.
  - injection Hs as <-. by rewrite app_nil_r.
  - injection Hs as <-. rewrite app_nil_r.
    induction (connectListeners s) as [|n IH]; simpl; [done|]. exact IH.
  - destruct (authPending s); [|done]. injection Hs as <-.
    unfold onceCallback. simpl. destruct (callback s); simpl;
      by rewrite app_nil_r.
  - destruct (authPending s); [|done]. injection Hs as <-. simpl.
    by rewrite app_nil_r.
  - destruct (selectPending s); [done|]. injection Hs as <-.
    unfold onceCallback. simpl. destruct (callback s); simpl;
      by rewrite app_nil_r.
  - destruct (selectPending s); [done|]. injection Hs as <-.
    unfold onceCallback. simpl. by destruct (callback s).
Qed.

Lemma run_array (evs : list Event) (s s' : Login V) :
  run_ s evs = Some s' ->
  client s' = client s
  /\ conns s' = conns s ++ replicate (length (List.filter completes evs)) (client s).
Proof.
  revert s. induction evs as [|ev evs IH]; simpl; intros s Hr.
  - injection Hr as <-. by rewrite app_nil_r.
  - destruct (step_ s ev) as [s1|] eqn:Hs; [|done].
    destruct (step_array _ _ _ Hs) as [Hc1 Ha1].
    destruct (IH s1 Hr) as [Hc2 Ha2].
    split; [congruence|].
    rewrite Ha2, Ha1, Hc1, <- app_assoc. f_equal.
    by destruct (completes ev).
Qed.

(** X13: after any events that follow a [login] call, [redisConnections]
    is the array from before the call followed by the new client once per
    successful [select] reply: nothing else is ever added, nothing is
    removed, and a client whose [select] succeeds again after a reconnect
    is in the array twice. *)
Theorem login_array_contents
  (label_ : string) (hostname port password dbIndex_ : V)
  (conns0 : list (Client V)) (evs : list Event) (s : Login V) :
  run_ (login_ label_ hostname port password dbIndex_ conns0) evs = Some s ->
  conns s
  = conns0
    ++ replicate (length (List.filter completes evs))
         (Redis_new default_db label_ hostname port password dbIndex_).
Proof. intros Hr. by destruct (run_array _ _ _ Hr) as [_ ->]. Qed.

Lemma selectDatabase_iter_flags (n : nat) (s : Login V) :
  isPushed (Nat.iter n (selectDatabase truthy parseInt zero) s) = isPushed s
  /\ released (Nat.iter n (selectDatabase truthy parseInt zero) s) = released s
  /\ connectListeners (Nat.iter n (selectDatabase truthy parseInt zero) s)
     = connectListeners s
  /\ authPending (Nat.iter n (selectDatabase truthy parseInt zero) s)
     = authPending s
  /\ selectPending (Nat.iter n (selectDatabase truthy parseInt zero) s)
     = (n + selectPending s)%nat.
Proof.
  induction n as [|n (H1 & H2 & H3 & H4 & H5)]; simpl; [done|].
  rewrite H5. done.
Qed.

Lemma step_isPushed (s s' : Login V) (ev : Event) :
  step_ s ev = Some s' -> isPushed s' = isPushed s || completes ev.
Proof.
  destruct ev as [err| | |[e|]|[e|]]; simpl; intros Hs.
  - injection Hs as <-. unfold onceCallback. rewrite orb_false_r.
    destruct (isPushed s) eqn:Hps; simpl; destruct (callback s); simpl;
      by rewrite ?Hps.
  - injection Hs as <-. by rewrite orb_false_r.
  - injection Hs as <-. rewrite orb_false_r.
    apply selectDatabase_iter_flags.
  - destruct (authPending s); [|done]. injection Hs as <-.
    unfold onceCallback. simpl. rewrite orb_false_r. by destruct (callback s).
  - destruct (authPending s); [|done]. injection Hs as <-. simpl.
    by rewrite orb_false_r.
  - destruct (selectPending s); [done|]. injection Hs as <-.
    unfold onceCallback. simpl. rewrite orb_false_r. by destruct (callback s).
  - destruct (selectPending s); [done|]. injection Hs as <-.
    unfold onceCallback. simpl. rewrite orb_true_r. by destruct (callback s).
Qed.

Lemma step_success (s s' : Login V) (ev : Event) :
  step_ s ev = Some s' ->
  completes ev = true ->
  callback s = true ->
  callback s' = false /\ called s' = called s ++ [None].
Proof.
  destruct ev as [err| | |[e|]|[e|]]; simpl; intros Hs Hc Hcb; try done.
  destruct (selectPending s); [done|]. injection Hs as <-.
  unfold onceCallback. simpl. by rewrite Hcb.
Qed.

Lemma run_isPushed (evs : list Event) (s s' : Login V) :
  run_ s evs = Some s' -> isPushed s' = isPushed s || existsb completes evs.
Proof.
  revert s. induction evs as [|ev evs IH]; simpl; intros s Hr.
  - injection Hr as <-. by rewrite orb_false_r.
  - destruct (step_ s ev) as [s1|] eqn:Hs; [|done].
    by rewrite (IH s1 Hr), (step_isPushed _ _ _ Hs), orb_assoc.
Qed.

(** The guard of [onceCallback] and the order of push and callback. *)
Lemma step_guard (s s' : Login V) (ev : Event) :
  step_ s ev = Some s' ->
  ((callback s = true /\ called s = [])
   \/ (callback s = false /\ exists x, called s = [x])) ->
  (called s = [None] -> isPushed s = true) ->
  (isPushed s = true -> called s <> [] /\ client s ∈ conns s) ->
  ((callback s' = true /\ called s' = [])
   \/ (callback s' = false /\ exists x, called s' = [x]))
  /\ (called s' = [None] -> isPushed s' = true)
  /\ (isPushed s' = true -> called s' <> [] /\ client s' ∈ conns s').
Proof.
  intros Hs Hg Hn Hp.
  pose proof (step_isPushed _ _ _ Hs) as Hpushed.
  destruct (step_array _ _ _ Hs) as [Hclient Harray].
  rewrite Hclient, Harray, Hpushed.
  destruct (completes ev) eqn:Hc.
  - rewrite orb_true_r.
    assert (client s ∈ conns s ++ [client s]) as Hin.
    { apply elem_of_app. right. by apply list_elem_of_singleton. }
    destruct Hg as [[Hcb Hcalled]|[Hcb [x Hcalled]]].
    + destruct (step_success _ _ _ Hs Hc Hcb) as [-> ->]. rewrite Hcalled.
      simpl. split; [eauto|done].
    + destruct (step_spent V truthy parseInt zero _ _ _ Hs Hcb) as [-> ->].
      rewrite Hcalled. split; [eauto|done].
  - rewrite orb_false_r, app_nil_r.
    destruct Hg as [[Hcb Hcalled]|[Hcb [x Hcalled]]].
    + pose proof (step_pending V truthy parseInt zero _ _ _ Hs Hc Hcb Hcalled)
        as Hstep.
      assert (isPushed s = false) as Hnp.
      { destruct (isPushed s); [|done]. by destruct (Hp eq_refl). }
      rewrite Hnp. destruct (fails ev).
      * destruct Hstep as [-> [e ->]]. split; [eauto|done].
      * destruct Hstep as [-> ->]. split; [auto|done].
    + destruct (step_spent V truthy parseInt zero _ _ _ Hs Hcb) as [-> ->].
      rewrite Hcalled in *. split; [eauto|]. split; [done|].
      intros Hps. split; [done|]. by apply Hp.
Qed.

Lemma run_guard (evs : list Event) (s s' : Login V) :
  run_ s evs = Some s' ->
  ((callback s = true /\ called s = [])
   \/ (callback s = false /\ exists x, called s = [x])) ->
  (called s = [None] -> isPushed s = true) ->
  (isPushed s = true -> called s <> [] /\ client s ∈ conns s) ->
  ((callback s' = true /\ called s' = [])
   \/ (callback s' = false /\ exists x, called s' = [x]))
  /\ (called s' = [None] -> isPushed s' = true)
  /\ (isPushed s' = true -> called s' <> [] /\ client s' ∈ conns s').
Proof.
  revert s. induction evs as [|ev evs IH]; simpl; intros s Hr Hg Hn Hp.
  - by injection Hr as <-.
  - destruct (step_ s ev) as [s1|] eqn:Hs; [|done].
    destruct (step_guard _ _ _ Hs Hg Hn Hp) as (Hg1 & Hn1 & Hp1).
    by apply (IH s1).
Qed.

(** X14: whatever the client delivers after a [login] call, and in
    whatever order, [callback] is called at most once; it has been called
    exactly when the variable [callback] has been set to [null]; when it
    was called without error, [isPushed] is set and the client is in
    [redisConnections]; and once [isPushed] is set the callback has been
    called. *)
Theorem login_callback_at_most_once
  (label_ : string) (hostname port password dbIndex_ : V)
  (conns0 : list (Client V)) (evs : list Event) (s : Login V) :
  run_ (login_ label_ hostname port password dbIndex_ conns0) evs = Some s ->
  (length (called s) <= 1)%nat
  /\ (callback s = true <-> called s = [])
  /\ (called s = [None] ->
      isPushed s = true
      /\ Redis_new default_db label_ hostname port password dbIndex_ ∈ conns s)
  /\ (isPushed s = true -> called s <> []).
Proof.
  intros Hr.
  destruct (run_guard _ _ _ Hr) as (Hg & Hn & Hp); [by left|done|done|].
  destruct (run_array _ _ _ Hr) as [Hclient _]. simpl in Hclient.
  split; [|split; [|split]].
  - destruct Hg as [[_ ->]|[_ [x ->]]]; simpl; lia.
  - destruct Hg as [[-> ->]|[-> [x ->]]]; done.
  - intros Hnone. split; [by apply Hn|].
    destruct (Hp (Hn Hnone)) as [_ Hin]. by rewrite Hclient in Hin.
  - intros Hps. by destruct (Hp Hps).
Qed.

(** X15: with a password, nothing is selected before the [auth] reply:
    ["connect"] events that come earlier find no listener, so as long as
    [auth] has not succeeded no [select] is outstanding and the array is
    as before the call; and the successful [auth] reply itself only
    registers the listener -- it takes a ["connect"] event after it to
    send the [select]. *)
Theorem login_with_password_waits_for_connect
  (label_ : string) (hostname port password dbIndex_ : V)
  (conns0 : list (Client V)) (evs : list Event) (s : Login V) :
  truthy password = true ->
  AuthReply None ∉ evs ->
  run_ (login_ label_ hostname port password dbIndex_ conns0) evs = Some s ->
  selectPending s = O
  /\ connectListeners s = O
  /\ conns s = conns0
  /\ isPushed s = false
  /\ (forall s', step_ s (AuthReply None) = Some s' ->
        selectPending s' = O /\ connectListeners s' = 1%nat
        /\ called s' = called s /\ conns s' = conns0)
  /\ (forall s' s'', step_ s (AuthReply None) = Some s' ->
        step_ s' Connect = Some s'' -> selectPending s'' = 1%nat).
Proof.
  intros Hpw Hno Hr.
  assert (forall evs (s0 s1 : Login V),
            AuthReply None ∉ evs ->
            run_ s0 evs = Some s1 ->
            selectPending s0 = O -> connectListeners s0 = O ->
            isPushed s0 = false ->
            selectPending s1 = O /\ connectListeners s1 = O
            /\ conns s1 = conns s0 /\ isPushed s1 = false) as Hinv.
  { clear. intros evs. induction evs as [|ev evs IH]; simpl; intros s0 s1 Hno Hr Hp Hl Hps.
    - by injection Hr as <-.
    - apply not_elem_of_cons in Hno as [Hne Hno].
      destruct (step_ s0 ev) as [s2|] eqn:Hs; [|done].
      assert (selectPending s2 = O /\ connectListeners s2 = O
              /\ conns s2 = conns s0 /\ isPushed s2 = false)
        as (Hp2 & Hl2 & Hc2 & Hps2).
      { destruct ev as [err| | |[e|]|[e|]]; simpl in Hs.
        - injection Hs as <-. rewrite Hps. unfold onceCallback. simpl.
          by destruct (callback s0).
        - by injection Hs as <-.
        - injection Hs as <-. by rewrite Hl.
        - destruct (authPending s0); [|done]. injection Hs as <-.
          unfold onceCallback. simpl. by destruct (callback s0).
        - done.
        - by rewrite Hp in Hs.
        - by rewrite Hp in Hs. }
      destruct (IH s2 s1 Hno Hr Hp2 Hl2 Hps2) as (? & ? & ? & ?).
      repeat split; congruence. }
  destruct (Hinv evs _ s Hno Hr) as (Hp & Hl & Hc & Hps); simpl; try done.
  { by rewrite Hpw. }
  split; [done|]. split; [done|]. split; [done|]. split; [done|]. split.
  - intros s' Hs. simpl in Hs. destruct (authPending s); [|done].
    injection Hs as <-. simpl. by rewrite Hl.
  - intros s' s'' Hs Hs'. simpl in Hs. destruct (authPending s); [|done].
    injection Hs as <-. simpl in Hs'. injection Hs' as <-. simpl.
    rewrite Hl. simpl. by rewrite Hp.
Qed.

(** X16: a transport error after the handshake is only logged.  Once the
    client has been pushed, ["error"] and ["end"] events -- any number of
    them -- are always handled, leave the client in [redisConnections], do
    not quit or disconnect it and do not call the callback again; before
    the push every ["error"] event quits and disconnects the client. *)
Theorem transport_error_after_push (s : Login V) (evs : list Event) :
  (forall ev, ev ∈ evs -> ev = End_ \/ exists err, ev = Error err) ->
  exists s',
    run_ s evs = Some s'
    /\ conns s' = conns s
    /\ isPushed s' = isPushed s
    /\ (isPushed s = true ->
        released s' = released s
        /\ (callback s = false -> called s' = called s))
    /\ (isPushed s = false ->
        released s' = (released s + length (List.filter fails evs))%nat).
Proof.
  revert s. induction evs as [|ev evs IH]; intros s Hall; simpl.
  - exists s. split; [done|]. split; [done|]. split; [done|].
    split; [done|]. intros _. lia.
  - assert (ev = End_ \/ exists err, ev = Error err) as [->|[err ->]]
      by (apply Hall; by left).
    + destruct (IH s) as (s' & Hr & Hc & Hp & H1 & H2).
      { intros ev Hev. apply Hall. by right. }
      exists s'. simpl. rewrite Hr. done.
    + simpl.
      set (s1 := onceCallback (Some err)
                   (if isPushed s then s else quit_disconnect s)).
      assert (conns s1 = conns s /\ isPushed s1 = isPushed s
              /\ released s1 = (if isPushed s then released s else S (released s))
              /\ (callback s = false -> called s1 = called s)
              /\ (callback s = false -> callback s1 = false))
        as (Hc1 & Hp1 & Hr1 & Hcl1 & Hcb1).
      { unfold s1, onceCallback.
        destruct (isPushed s) eqn:Hps; simpl;
          destruct (callback s) eqn:Hcb; simpl; rewrite ?Hps, ?Hcb; done. }
      destruct (IH s1) as (s' & Hr & Hc & Hp & H1 & H2).
      { intros ev Hev. apply Hall. by right. }
      exists s'. rewrite Hr, Hc, Hp, Hc1, Hp1.
      split; [done|]. split; [done|]. split; [done|]. split.
      * intros Hps. rewrite Hp1, Hps in H1. destruct (H1 eq_refl) as [-> H1'].
        rewrite Hr1, Hps. split; [done|].
        intros Hcb. rewrite (H1' (Hcb1 Hcb)). by apply Hcl1.
      * intros Hps. rewrite Hp1 in H2. rewrite (H2 Hps), Hr1, Hps.
        simpl. lia.
Qed.

(** X17: [logout] looks for the client by [options.db], which [login] does
    not set (it passes [dbIndex]).  After a [login] without password whose
    first [select] succeeds, into an array without a client for the target,
    [logout(hostname, port, db)] finds the new client -- and restores the
    array from before the [login] -- exactly when [db] is [==] to the
    [options.db] that the client library gives a connection made without
    [db]; the [dbIndex] that was passed to [login] plays no part. *)
Theorem login_then_logout
  (label_ : string) (hostname port password dbIndex_ db : V)
  (conns0 : list (Client V)) (s : Login V) :
  truthy password = false ->
  loose_eq hostname hostname = true ->
  loose_eq port port = true ->
  (forall c, c ∈ conns0 -> same_target loose_eq hostname port db c = false) ->
  run_ (login_ label_ hostname port password dbIndex_ conns0)
    [Connect; SelectReply None] = Some s ->
  called s = [None]
  /\ conns s
     = conns0 ++ [Redis_new default_db label_ hostname port password dbIndex_]
  /\ logout loose_eq hostname port db (conns s)
     = if loose_eq default_db db
       then (conns0,
             [Redis_new default_db label_ hostname port password dbIndex_],
             None)
       else (conns s, [], Some "Could not remove ").
Proof.
  intros Hpw Hh Hp Hnone. simpl. rewrite Hpw. simpl. intros [= <-]. simpl.
  split; [done|]. split; [done|].
  destruct (loose_eq default_db db) eqn:Hdb.
  - rewrite logout_first; [by rewrite app_nil_r|done|].
    unfold same_target. simpl. by rewrite Hh, Hp, Hdb.
  - apply logout_no_match. intros c Hc.
    apply elem_of_app in Hc as [Hc|Hc]; [by apply Hnone|].
    apply list_elem_of_singleton in Hc as ->.
    unfold same_target. simpl. by rewrite Hdb, andb_false_r.
Qed.

End RegistryMore.

(** ** The further properties at sample inputs *)

Lemma equalStrings_exact_on_equal_length_witness :
  Crypto.equalStrings true "secret" "secreT" = Some true
  <-> Crypto.units_of_string "secret" = Crypto.units_of_string "secreT".
Proof.
  apply (equalStrings_exact_on_equal_length true
           (Crypto.units_of_string "secret") (Crypto.units_of_string "secreT")).
  - vm_compute. reflexivity.
  - vm_compute. reflexivity.
  - vm_compute. reflexivity.
Defined.

(** The strings "é" and "éé": one and two code units e9. *)
Lemma equalStrings_commuting_strings_witness :
  Crypto.equalStrings true [233%N] [233%N; 233%N] = Some true.
Proof.
  apply (proj1 (equalStrings_commuting_strings [233%N] [233%N; 233%N])).
  - vm_compute. reflexivity.
  - vm_compute. reflexivity.
  - reflexivity.
Defined.

(** A query token presented a second time. *)
Lemma jwtVerify_footprint_witness :
  let token := "s.0.60.c2VjcmV0" in
  let st := Gate.usedTokens_add token Gate.initial in
  fst (Gate.jwtVerify Sample.decode Sample.secret token 5000 st)
  = Js.Resolved false
  /\ Gate.usedTokens (snd (Gate.jwtVerify Sample.decode Sample.secret token 5000 st))
     = Gate.usedTokens st
  /\ Gate.timers (snd (Gate.jwtVerify Sample.decode Sample.secret token 5000 st))
     = Gate.timers st.
Proof.
  intros token st.
  assert (fst (Gate.jwtVerify Sample.decode Sample.secret token 5000 st)
          = Js.Resolved false) as H by (vm_compute; reflexivity).
  split; [exact H|].
  exact (proj2 (proj2 (proj2 (jwtVerify_footprint Sample.decode Sample.secret
                                token 5000 st))) H).
Defined.

(** The timer of a query token, 70 s after the token was issued and used. *)
Lemma due_timer_evicts_token_witness :
  let token := "s.0.60.c2VjcmV0" in
  let evs := [Gate.Verify token; Gate.Elapse 70000] in
  let w := Gate.run Sample.decode Sample.secret (Gate.boot 0) evs in
  Gate.timers (Gate.gate w) !! 0%nat = Some (70000, token)
  /\ (token ∉ Gate.usedTokens (Gate.gate (Gate.fire 0 w)))
  /\ (forall d, (d, token) ∉ Gate.timers (Gate.gate (Gate.fire 0 w))).
Proof.
  intros token evs w. split; [reflexivity|].
  apply (proj1 (due_timer_evicts_token Sample.decode Sample.secret 0 evs 0
                  70000 token eq_refl)).
  vm_compute. discriminate.
Defined.

Lemma bearer_token_lifetime_witness :
  let token := Jwt.sign Sample.encode false Sample.secret 999 in
  Sample.decode Sample.secret token = Some (Jwt.claims false 999)
  /\ fst (Gate.jwtVerify Sample.decode Sample.secret token 59999 Gate.initial)
     = Js.Resolved true
  /\ fst (Gate.jwtVerify Sample.decode Sample.secret token 60000 Gate.initial)
     = Js.Resolved false.
Proof.
  intros token.
  pose proof (bearer_token_lifetime Sample.decode Sample.encode Sample.secret
                999 59999 Gate.initial eq_refl) as (H1 & _ & _).
  pose proof (bearer_token_lifetime Sample.decode Sample.encode Sample.secret
                999 60000 Gate.initial eq_refl) as (_ & _ & H2).
  split; [reflexivity|]. split.
  - apply H1. vm_compute. reflexivity.
  - apply H2. vm_compute. discriminate.
Defined.

Lemma signin_with_bearer_renews_witness :
  let req :=
    {| Http.method := "POST"; Http.path := "/"; Http.ip := "127.0.0.1";
       Http.body := None; Http.q_redisCommanderQueryToken := None;
       Http.h_Authorization :=
         Some ("Bearer " +:+ Jwt.sign Sample.encode false Sample.secret 0) |} in
  fst (Http.signin Sample.decode Sample.encode (fun _ _ => Js.Resolved false)
         true Sample.admin Sample.secret req 30000 Gate.initial)
  = Http.Json_ok (Jwt.sign Sample.encode false Sample.secret 30000)
                 (Jwt.sign Sample.encode true Sample.secret 30000).
Proof.
  intros req.
  apply (signin_with_bearer_renews Sample.decode Sample.encode
           (fun _ _ => Js.Resolved false) Sample.secret true Sample.admin req
           0 30000 Gate.initial).
  - vm_compute. reflexivity.
  - reflexivity.
  - reflexivity.
  - reflexivity.
  - reflexivity.
  - apply (bool_decide_unpack _). vm_compute. exact I.
  - vm_compute. reflexivity.
  - vm_compute. reflexivity.
Defined.

Lemma authenticate_with_hash_witness :
  let o := {| Http.username := Some "admin";
              Http.passwordHash := Some "$2b$10$hash";
              Http.password := Some "other" |} in
  let bcrypt := fun pass hash : string =>
    Js.Resolved (String.eqb pass "secret" && String.eqb hash "$2b$10$hash") in
  fst (Http.authenticate Sample.decode bcrypt true o Sample.secret
         (Sample.post_signin "admin" "secret") 0 Gate.initial)
  = Js.Resolved true
  /\ fst (Http.authenticate Sample.decode bcrypt true o Sample.secret
            (Sample.post_signin "admin" "other") 0 Gate.initial)
     <> Js.Resolved true.
Proof.
  intros o bcrypt. split.
  - apply (authenticate_with_hash Sample.decode bcrypt Sample.secret
             true o (Sample.post_signin "admin" "secret") 0
             Gate.initial "admin" "secret" None).
    + vm_compute. reflexivity.
    + vm_compute. reflexivity.
    + reflexivity.
    + left. discriminate.
    + split; vm_compute; reflexivity.
  - intros H.
    apply (authenticate_with_hash Sample.decode bcrypt Sample.secret
             true o (Sample.post_signin "admin" "other") 0
             Gate.initial "admin" "other" None) in H.
    + destruct H as [_ H]. vm_compute in H. discriminate H.
    + vm_compute. reflexivity.
    + vm_compute. reflexivity.
    + reflexivity.
    + left. discriminate.
Defined.

Lemma middleware_fails_closed_witness :
  let req := Sample.get_with None None (Some "Bearer m.0.60.c2VjcmV0") in
  fst (Http.middleware Sample.decode Sample.admin Sample.secret req 5000
         Gate.initial) = Http.Next
  /\ exists token p,
       Http.extract_token req = Some token /\ token <> ""
       /\ Jwt.verify Sample.decode token Sample.secret 5000 = inr p
       /\ Jwt.iss p = Some Jwt.issuer /\ Jwt.sub p = Some Jwt.subject
       /\ (forall e, Jwt.exp p = Some e -> Jwt.clockTimestamp 5000 < e).
Proof.
  intros req.
  assert (fst (Http.middleware Sample.decode Sample.admin Sample.secret req
                 5000 Gate.initial) = Http.Next) as H
    by (vm_compute; reflexivity).
  split; [exact H|].
  exact (proj2 (middleware_fails_closed Sample.decode Sample.secret
                  Sample.admin req 5000 Gate.initial eq_refl) H).
Defined.

Lemma query_token_opens_once_witness :
  let token := Jwt.sign Sample.encode true Sample.secret 0 in
  let first := Sample.get_with None (Some token) None in
  let again := Sample.get_with (Some token) None None in
  let w := Gate.boot 2000 in
  fst (Http.middleware Sample.decode Sample.admin Sample.secret first
         (Gate.now w) (Gate.gate w)) = Http.Next
  /\ (forall later,
        let w' :=
          Gate.run Sample.decode Sample.secret
            {| Gate.now := Gate.now w;
               Gate.gate :=
                 snd (Http.middleware Sample.decode Sample.admin Sample.secret
                        first (Gate.now w) (Gate.gate w)) |}
            later in
        fst (Http.middleware Sample.decode Sample.admin Sample.secret again
               (Gate.now w') (Gate.gate w'))
        = Http.End_with 401 "Unauthorized - Token Invalid or Expired").
Proof.
  intros token first again w.
  apply (query_token_opens_once Sample.decode Sample.encode Sample.secret
           Sample.admin first again 0 2000 [] w); try reflexivity.
  - discriminate.
  - apply not_elem_of_nil.
  - vm_compute. discriminate.
Defined.

Lemma logout_outcome_witness :
  let a := Sample.conn "a" 1 6379 0 in
  let b := Sample.conn "b" 2 6379 0 in
  (Registry.logout Z.eqb 2 6379 0 [a; b; b]).2 = None
  /\ (Registry.logout Z.eqb 2 6379 0 [a; b; b]).1.1
     ++ (Registry.logout Z.eqb 2 6379 0 [a; b; b]).1.2 ≡ₚ [a; b; b].
Proof.
  intros a b.
  pose proof (logout_outcome Z Z.eqb 2 6379 0 [a; b; b]) as (H1 & H2 & _).
  split; [|exact H2].
  apply H1. exists b. split; [|reflexivity].
  apply list_elem_of_further, list_elem_of_here.
Defined.

(** A [login] whose [select] succeeds, and succeeds again after a
    reconnect. *)
Lemma login_array_contents_witness :
  exists s,
    Registry.run Sample.nonzero id 0
      (Registry.login Sample.nonzero 0 "cache1" 1 6379 0 0 [])
      [Registry.Connect; Registry.SelectReply None;
       Registry.End_; Registry.Connect; Registry.SelectReply None]
    = Some s
    /\ Registry.conns s
       = [Registry.Redis_new 0 "cache1" 1 6379 0 0;
          Registry.Redis_new 0 "cache1" 1 6379 0 0].
Proof.
  eexists. split; [vm_compute; reflexivity|].
  apply (login_array_contents Z Sample.nonzero id 0 0 "cache1" 1 6379 0 0 []
           [Registry.Connect; Registry.SelectReply None;
            Registry.End_; Registry.Connect; Registry.SelectReply None]).
  vm_compute. reflexivity.
Defined.

Lemma login_callback_at_most_once_witness :
  exists s,
    Registry.run Sample.nonzero id 0
      (Registry.login Sample.nonzero 0 "cache1" 1 6379 0 0 [])
      [Registry.Connect; Registry.SelectReply None; Registry.Error "ECONNRESET";
       Registry.Connect; Registry.SelectReply (Some "ERR")]
    = Some s
    /\ (length (Registry.called s) <= 1)%nat
    /\ (Registry.callback s = true <-> Registry.called s = [])
    /\ (Registry.called s = [None] ->
        Registry.isPushed s = true
        /\ Registry.Redis_new 0 "cache1" 1 6379 0 0 ∈ Registry.conns s)
    /\ (Registry.isPushed s = true -> Registry.called s <> []).
Proof.
  eexists. split; [vm_compute; reflexivity|].
  apply (login_callback_at_most_once Z Sample.nonzero id 0 0 "cache1" 1 6379
           0 0 []
           [Registry.Connect; Registry.SelectReply None;
            Registry.Error "ECONNRESET";
            Registry.Connect; Registry.SelectReply (Some "ERR")]).
  vm_compute. reflexivity.
Defined.

(** A [login] with password 7: the connection is made, then [auth] is
    answered. *)
Lemma login_with_password_waits_for_connect_witness :
  exists s,
    Registry.run Sample.nonzero id 0
      (Registry.login Sample.nonzero 0 "cache1" 1 6379 7 0 [])
      [Registry.Connect; Registry.End_] = Some s
    /\ Registry.selectPending s = O
    /\ Registry.conns s = []
    /\ (forall s',
          Registry.step Sample.nonzero id 0 s (Registry.AuthReply None) = Some s' ->
          Registry.selectPending s' = O /\ Registry.connectListeners s' = 1%nat
          /\ Registry.called s' = Registry.called s /\ Registry.conns s' = []).
Proof.
  eexists. split; [vm_compute; reflexivity|].
  match goal with
  | |- Registry.selectPending ?s = _ /\ _ =>
      destruct (login_with_password_waits_for_connect Z Sample.nonzero id 0 0
                  "cache1" 1 6379 7 0 [] [Registry.Connect; Registry.End_] s
                  eq_refl) as (H1 & _ & H3 & _ & H5 & _)
  end.
  - intros Hin. apply elem_of_cons in Hin as [Hin|Hin]; [discriminate|].
    apply elem_of_cons in Hin as [Hin|Hin]; [discriminate|].
    by apply not_elem_of_nil in Hin.
  - vm_compute. reflexivity.
  - split; [exact H1|]. split; [exact H3|]. exact H5.
Defined.

Lemma transport_error_after_push_witness :
  let s :=
    {| Registry.conns := [Sample.conn "a" 1 6379 0];
       Registry.client := Sample.conn "a" 1 6379 0;
       Registry.callback := false; Registry.isPushed := true;
       Registry.dbIndex := 0; Registry.connectListeners := 1;
       Registry.authPending := false; Registry.selectPending := 0;
       Registry.called := [None]; Registry.released := 0 |} in
  exists s',
    Registry.run Sample.nonzero id 0 s
      [Registry.Error "ECONNRESET"; Registry.End_; Registry.Error "ETIMEDOUT"]
    = Some s'
    /\ Registry.conns s' = [Sample.conn "a" 1 6379 0]
    /\ Registry.released s' = O
    /\ Registry.called s' = [None].
Proof.
  intros s.
  destruct (transport_error_after_push Z Sample.nonzero id 0 s
              [Registry.Error "ECONNRESET"; Registry.End_;
               Registry.Error "ETIMEDOUT"])
    as (s' & Hr & Hc & _ & H1 & _).
  - intros ev Hev.
    apply elem_of_cons in Hev as [->|Hev]; [right; eauto|].
    apply elem_of_cons in Hev as [->|Hev]; [by left|].
    apply elem_of_cons in Hev as [->|Hev]; [right; eauto|].
    by apply not_elem_of_nil in Hev.
  - exists s'. destruct (H1 eq_refl) as [Hrel Hcalled].
    split; [exact Hr|]. split; [exact Hc|]. split; [exact Hrel|].
    exact (Hcalled eq_refl).
Defined.

(** [login] with [dbIndex] 3 where the library default for [options.db]
    is 0: [logout] with db 3 does not find the client, with db 0 it does. *)
Lemma login_then_logout_witness :
  exists s,
    Registry.run Sample.nonzero id 0
      (Registry.login Sample.nonzero 0 "cache1" 1 6379 0 3 [])
      [Registry.Connect; Registry.SelectReply None] = Some s
    /\ Registry.logout Z.eqb 1 6379 3 (Registry.conns s)
       = (Registry.conns s, [], Some "Could not remove ")
    /\ Registry.logout Z.eqb 1 6379 0 (Registry.conns s)
       = ([], [Registry.Redis_new 0 "cache1" 1 6379 0 3], None).
Proof.
  eexists. split; [vm_compute; reflexivity|].
  split.
  - apply (login_then_logout Z Z.eqb Sample.nonzero id 0 0 "cache1" 1 6379 0 3
             3 []); try reflexivity.
    intros c Hc. by apply not_elem_of_nil in Hc.
  - apply (login_then_logout Z Z.eqb Sample.nonzero id 0 0 "cache1" 1 6379 0 3
             0 []); try reflexivity.
    intros c Hc. by apply not_elem_of_nil in Hc.
Defined.

Lemma timers_track_spent_tokens_witness :
  let w := Gate.run Sample.decode Sample.secret (Gate.boot 0)
             [Gate.Verify "s.0.60.c2VjcmV0"; Gate.Verify "s.0.60.c2VjcmV0";
              Gate.Verify Sample.far_token; Gate.Elapse 1; Gate.Fire 1] in
  (length (Gate.timers (Gate.gate w)) <= size (Gate.usedTokens (Gate.gate w)))%nat
  /\ Gate.timers (Gate.gate w) = [(70000, "s.0.60.c2VjcmV0")].
Proof.
  intros w. split; [|reflexivity].
  apply (timers_track_spent_tokens Sample.decode Sample.secret 0
           [Gate.Verify "s.0.60.c2VjcmV0"; Gate.Verify "s.0.60.c2VjcmV0";
            Gate.Verify Sample.far_token; Gate.Elapse 1; Gate.Fire 1]).
Defined.

(** Configured password ["abab"]: the posted ["ab"] passes, the posted
    ["abba"] of the same length does not. *)
Lemma plaintext_password_check_witness :
  let o := {| Http.username := Some "admin"; Http.passwordHash := None;
              Http.password := Some "abab" |} in
  fst (Http.authenticate Sample.decode (fun _ _ => Js.Resolved false) true o
         Sample.secret (Sample.post_signin "admin" "ab") 0 Gate.initial)
  = Js.Resolved true
  /\ fst (Http.authenticate Sample.decode (fun _ _ => Js.Resolved false) true o
            Sample.secret (Sample.post_signin "admin" "abba") 0 Gate.initial)
     <> Js.Resolved true.
Proof.
  intros o.
  assert (Http.no_principal o = false) as Hp by (vm_compute; reflexivity).
  assert (Js.truthy (Http.passwordHash o) = false) as Hh
    by (vm_compute; reflexivity).
  assert ("admin" <> "" \/ "ab" <> "") as Hab by (left; discriminate).
  assert ("admin" <> "" \/ "abba" <> "") as Habba by (left; discriminate).
  assert (String.length "abba" = String.length (Js.String_ (Http.password o)))
    as Hl by (vm_compute; reflexivity).
  pose proof (plaintext_password_check Sample.decode
                (fun _ _ => Js.Resolved false) Sample.secret o
                (Sample.post_signin "admin" "ab") 0 Gate.initial
                "admin" "ab" None Hp Hh eq_refl Hab) as [H1 _].
  pose proof (plaintext_password_check Sample.decode
                (fun _ _ => Js.Resolved false) Sample.secret o
                (Sample.post_signin "admin" "abba") 0 Gate.initial
                "admin" "abba" None Hp Hh eq_refl Habba) as [_ H2].
  split.
  - apply H1. split; vm_compute; reflexivity.
  - intros H. apply (H2 Hl) in H as [_ H]. vm_compute in H. discriminate H.
Defined.
